(** * Highlight synchronisation engine ([src/parsers/parser.js])

    A shallow embedding of the engine that reconciles parsed
    [(book, highlights)] tuples with the two remote collections, and the
    properties of it that the specification states.

    Conventions of the embedding.
    - A promise chain is a state-passing computation over [World] whose
      result is an [Outcome]: fulfilled, rejected, or never settled.  The
      engine has a single chain in flight, so the order of effects in the
      source is the order of state threading here.
    - JavaScript strings are [string]; a character is a code unit below 256.
    - Fields whose type the source leaves open are [JsVal].
    - The libraries the source calls ([uuid], [moment], [truncate], [slug])
      are variables of the section; the remote document store is the state
      machine [Remote]. *)

From Stdlib Require Import String Ascii List ZArith Bool Arith Lia DecimalString.
Import ListNotations.
Local Open Scope string_scope.
Local Open Scope list_scope.

Infix "+++" := String.append (at level 60, right associativity).

(** ** JavaScript values *)

Inductive JsVal : Type :=
| JUndefined
| JNull
| JBool (b : bool)
| JNum (n : Z)          (* an integer-valued number, printed in decimal *)
| JNaN
| JStr (s : string).

(** Truthiness, as tested by [if (v)] and [v ? a : b]. *)
Definition ToBoolean (v : JsVal) : bool :=
  match v with
  | JUndefined => false
  | JNull => false
  | JBool b => b
  | JNum n => negb (n =? 0)%Z
  | JNaN => false
  | JStr s => negb (s =? EmptyString)
  end.

(** [String(v)]. *)
Definition js_String (v : JsVal) : string :=
  match v with
  | JUndefined => "undefined"
  | JNull => "null"
  | JBool true => "true"
  | JBool false => "false"
  | JNum n => NilZero.string_of_int (Z.to_int n)
  | JNaN => "NaN"
  | JStr s => s
  end.

(** ** [String.prototype.trim] *)

(** White space and line terminators among the code units below 256:
    TAB, LF, VT, FF, CR, SP and NBSP. *)
Definition is_whitespace (c : ascii) : bool :=
  let n := nat_of_ascii c in
  ((n =? 9) || (n =? 10) || (n =? 11) || (n =? 12) || (n =? 13)
   || (n =? 32) || (n =? 160))%nat.

Fixpoint trimLeft (s : string) : string :=
  match s with
  | EmptyString => EmptyString
  | String c r => if is_whitespace c then trimLeft r else s
  end.

Fixpoint trimRight (s : string) : string :=
  match s with
  | EmptyString => EmptyString
  | String c r =>
      let r' := trimRight r in
      if is_whitespace c && (r' =? EmptyString) then EmptyString else String c r'
  end.

Definition trim (s : string) : string := trimRight (trimLeft s).

(** ** Data model *)

(** What a format parser hands over: [result.book], [result.highlights]. *)
Record Book : Type := mkBook {
  title : string;
  author : JsVal;
  asin : JsVal
}.

Record Highlight : Type := mkHighlight {
  content : string;
  date : JsVal;
  location : JsVal;
  comments : JsVal;
  source : JsVal;
  user : JsVal
}.

Record Tuple : Type := mkTuple {
  res_book : Book;
  res_highlights : list Highlight
}.

(** The three format parsers, reduced to what [parse] asks of them on the
    mail at hand. *)
Record Parsers : Type := mkParsers {
  ibooks_parseable : bool;
  ibooks_parse : Tuple;
  readmill_parseable : bool;
  readmill_parse : list Tuple;
  kindle_parseable : bool;
  kindle_parse : list Tuple
}.

(** A book document: the object literal of [addBookAndHighlights], completed
    by the [merge] of [createBook]. *)
Record BookMetadata : Type := mkBookMetadata {
  bm_author : JsVal;
  bm_asin : JsVal;
  uuid : string;
  original_title : option string;
  bm_date : option string
}.

Record BookParams : Type := mkBookParams {
  bp_title : string;
  bp_metadata : BookMetadata
}.

(** A highlight document: the [params] of [createHighlight]. *)
Record HighlightMetadata : Type := mkHighlightMetadata {
  book_uuid : string;
  hm_comments : JsVal;
  hm_location : JsVal;
  hm_source : JsVal;
  highlighted_on : option string;
  highlight_by : option JsVal
}.

Record HighlightParams : Type := mkHighlightParams {
  body : string;
  hp_title : string;
  path : string;
  hp_metadata : HighlightMetadata
}.

(** A stored document is the posted body with the identifier the store
    assigned. *)
Record BookDoc : Type := mkBookDoc {
  book_id : nat;
  book_fields : BookParams
}.

Record HighlightDoc : Type := mkHighlightDoc {
  highlight_id : nat;
  highlight_fields : HighlightParams
}.

(** ** The remote document store *)

Inductive Collection : Type := Books | Highlights.

Inductive Request : Type :=
| GET_documents (c : Collection) (limit : N)
| POST_book (params : BookParams)
| POST_highlight (params : HighlightParams).

(** Modelled from the spec: the remote store client ([siteleaf-api], a
    dependency that is not part of the sources).  Section 6 of the
    specification gives its interface: [list] answers with the ordered
    sequence of the collection's records, [create] stores the body and
    answers with the created record and its assigned id, and either call can
    fail with a remote error.  The page-size ceiling the engine sends is
    recorded with the call; the answer holds every record, as the
    specification reads that ceiling.

    [r_faults] is the schedule of failures: its head tells whether the next
    call fails, and an exhausted schedule means no failure.  [r_calls] is the
    chronological record of the calls received, each with whether it
    succeeded. *)
Record Remote : Type := mkRemote {
  r_books : list BookDoc;
  r_highlights : list HighlightDoc;
  r_next_id : nat;
  r_faults : list bool;
  r_calls : list (Request * bool)
}.

Definition next_fault (r : Remote) : bool := hd false (r_faults r).

Arguments next_fault : simpl never.

Definition received (q : Request) (r : Remote) : Remote :=
  {| r_books := r_books r;
     r_highlights := r_highlights r;
     r_next_id := r_next_id r;
     r_faults := tl (r_faults r);
     r_calls := r_calls r ++ [(q, negb (next_fault r))] |}.

Definition list_books (limit : N) (r : Remote) : option (list BookDoc) * Remote :=
  let r' := received (GET_documents Books limit) r in
  if next_fault r then (None, r') else (Some (r_books r), r').

Definition list_highlights (limit : N) (r : Remote)
  : option (list HighlightDoc) * Remote :=
  let r' := received (GET_documents Highlights limit) r in
  if next_fault r then (None, r') else (Some (r_highlights r), r').

Definition create_book (params : BookParams) (r : Remote) : option BookDoc * Remote :=
  let r' := received (POST_book params) r in
  if next_fault r then (None, r')
  else
    let doc := {| book_id := r_next_id r; book_fields := params |} in
    (Some doc,
     {| r_books := r_books r' ++ [doc];
        r_highlights := r_highlights r';
        r_next_id := S (r_next_id r');
        r_faults := r_faults r';
        r_calls := r_calls r' |}).

Definition create_highlight (params : HighlightParams) (r : Remote)
  : option HighlightDoc * Remote :=
  let r' := received (POST_highlight params) r in
  if next_fault r then (None, r')
  else
    let doc := {| highlight_id := r_next_id r; highlight_fields := params |} in
    (Some doc,
     {| r_books := r_books r';
        r_highlights := r_highlights r' ++ [doc];
        r_next_id := S (r_next_id r');
        r_faults := r_faults r';
        r_calls := r_calls r' |}).

(** ** The process state *)

(** [var cache = { highlights: null, books: null }]: [None] is [null]. *)
Record Cache : Type := mkCache {
  c_highlights : option (list HighlightDoc);
  c_books : option (list BookDoc)
}.

(** What [console.time], [console.timeEnd] and [console.log] print. *)
Inductive LogLine : Type :=
| Time (label : string)
| TimeEnd (label : string)
| Filtering (n : nat) (book_title : string)
| FoundExisting (snippet : string)
| Creating (n : nat) (book_title : string)
| Created (i n : nat) (book_title : string)
| InvalidDate (d : JsVal).

(** [entropy] counts the identifiers drawn from [uuid.v4()] and [clock] the
    readings of the current time. *)
Record World : Type := mkWorld {
  cache : Cache;
  siteleaf : Remote;
  console : list LogLine;
  entropy : nat;
  clock : nat
}.

Definition set_siteleaf (r : Remote) (w : World) : World :=
  {| cache := cache w; siteleaf := r; console := console w;
     entropy := entropy w; clock := clock w |}.

Definition set_cache_highlights (hs : list HighlightDoc) (w : World) : World :=
  {| cache := {| c_highlights := Some hs; c_books := c_books (cache w) |};
     siteleaf := siteleaf w; console := console w;
     entropy := entropy w; clock := clock w |}.

Definition set_cache_books (bs : list BookDoc) (w : World) : World :=
  {| cache := {| c_highlights := c_highlights (cache w); c_books := Some bs |};
     siteleaf := siteleaf w; console := console w;
     entropy := entropy w; clock := clock w |}.

Definition console_logs (ls : list LogLine) (w : World) : World :=
  {| cache := cache w; siteleaf := siteleaf w; console := console w ++ ls;
     entropy := entropy w; clock := clock w |}.

Definition console_log (l : LogLine) (w : World) : World := console_logs [l] w.

Definition draw (w : World) : World :=
  {| cache := cache w; siteleaf := siteleaf w; console := console w;
     entropy := S (entropy w); clock := clock w |}.

Definition tick (w : World) : World :=
  {| cache := cache w; siteleaf := siteleaf w; console := console w;
     entropy := entropy w; clock := S (clock w) |}.

(** A process that has just started, talking to the store [r]. *)
Definition boot (r : Remote) : World :=
  {| cache := {| c_highlights := None; c_books := None |};
     siteleaf := r; console := []; entropy := 0; clock := 0 |}.

(** ** Promises *)

Inductive Error : Type :=
| RemoteError     (* the store client rejected the request *)
| TypeError.      (* a method called on [null] inside a [then] callback *)

(** The settlement of a promise.  [Pending] is a promise that is never
    settled: nothing chained on it ever runs. *)
Inductive Outcome (A : Type) : Type :=
| Fulfilled (a : A)
| Rejected (e : Error)
| Pending.

Arguments Fulfilled {A} a.
Arguments Rejected {A} e.
Arguments Pending {A}.

Definition Async (A : Type) : Type := World -> Outcome A * World.

(** [Promise.resolve(a)]. *)
Definition resolve {A} (a : A) : Async A := fun w => (Fulfilled a, w).

(** [p.then(f)], with no rejection handler. *)
Definition andThen {A B} (p : Async A) (f : A -> Async B) : Async B :=
  fun w =>
    match p w with
    | (Fulfilled a, w1) => f a w1
    | (Rejected e, w1) => (Rejected e, w1)
    | (Pending, w1) => (Pending, w1)
    end.

Notation "x <- p ;; k" := (andThen p (fun x => k))
  (at level 61, p at next level, right associativity).

(** The idiom used twice in the source:
[[
  new Promise(function (resolve) {
    async.eachSeries(items, function (item, cb) {
      iteratee(item).then(function () { return cb(); });
    }, resolve);
  })
]]
    [cb] is only reached from a fulfilled iteratee; the executor receives no
    [reject], and nothing handles a rejection of the inner chain.  So when an
    iteratee is rejected or never settles, [async] never moves to the next
    item nor to its final callback, and the promise stays pending.  [i] is
    the position handed to the iteratee, counted from the given start. *)
Fixpoint eachSeries {A B} (iteratee : nat -> A -> Async B) (i : nat)
  (items : list A) : Async unit :=
  fun w =>
    match items with
    | [] => (Fulfilled tt, w)
    | item :: rest =>
        match iteratee i item w with
        | (Fulfilled _, w1) => eachSeries iteratee (S i) rest w1
        | (_, w1) => (Pending, w1)
        end
    end.

(** ** Lodash helpers, at the shapes the source uses *)

(** [_.where(existingHighlights, { metadata: { book_uuid: u } })]. *)
Definition where_book_uuid (u : string) (existing : list HighlightDoc)
  : list HighlightDoc :=
  filter (fun h => book_uuid (hp_metadata (highlight_fields h)) =? u) existing.

(** [_.findWhere(books, { metadata: { original_title: t } })]. *)
Definition has_original_title (t : string) (b : BookDoc) : bool :=
  match original_title (bp_metadata (book_fields b)) with
  | Some t' => t' =? t
  | None => false
  end.

Definition findWhere_original_title (t : string) (books : list BookDoc)
  : option BookDoc :=
  find (has_original_title t) books.

(** [_.includes(array, s)] on strings. *)
Definition includes (array : list string) (s : string) : bool :=
  existsb (fun x => x =? s) array.

(** [_.reject(array, predicate)]. *)
Definition reject {A} (predicate : A -> bool) (array : list A) : list A :=
  filter (fun x => negb (predicate x)) array.

(** ** Concrete collaborators and inputs

    Sample collaborators, stores and tuples.  They are used at the end of
    the file, to run the engine and to apply the theorems. *)

Definition sample_uuid_v4 (n : nat) : string :=
  "uuid-" +++ NilZero.string_of_uint (Nat.to_uint n).

(** The identifiers another process draws. *)
Definition later_uuid_v4 (n : nat) : string := sample_uuid_v4 (n + 100).

Definition sample_moment_now (_ : nat) : string := "2020-03-03T09:00:00-05:00".

Definition later_moment_now (_ : nat) : string := "2020-03-04T09:00:00-05:00".

(** Modelled from the spec: the date normaliser ([moment], a dependency that
    is not part of the sources), on the dates the specification names.
    [March 3, 2020] and [2020-03-03T00:00:00Z] are the same instant, the
    local time zone being UTC; any other value is taken as unparseable. *)
Definition sample_moment_iso (d : JsVal) : option string :=
  match d with
  | JStr s =>
      if (s =? "March 3, 2020") || (s =? "2020-03-03T00:00:00Z")
      then Some "2020-03-03T00:00:00.000Z"
      else None
  | _ => None
  end.

Definition sample_truncate (s : string) (maxLength : nat) (ellipsis : option JsVal)
  : string :=
  if (String.length s <=? maxLength)%nat then s
  else substring 0 maxLength s
       +++ match ellipsis with
           | None => "..."
           | Some (JStr e) => e
           | Some _ => EmptyString
           end.

Fixpoint sample_slug (s : string) (lower : bool) : string :=
  match s with
  | EmptyString => EmptyString
  | String c r =>
      String (if is_whitespace c then "-"%char else c) (sample_slug r lower)
  end.

Definition empty_store : Remote :=
  {| r_books := []; r_highlights := []; r_next_id := 1; r_faults := []; r_calls := [] |}.

Definition quote (text : string) (when : JsVal) (loc : JsVal) : Highlight :=
  {| content := text; date := when; location := loc;
     comments := JUndefined; source := JStr "kindle"; user := JUndefined |}.

Definition foo : Book :=
  {| title := "Foo"; author := JStr "A. Author"; asin := JUndefined |}.

Definition bar : Book :=
  {| title := "Bar"; author := JStr "B. Author"; asin := JUndefined |}.

Definition hello : Highlight :=
  quote "Hello world." (JStr "March 3, 2020") (JNum 12).

Definition hello_again : Highlight :=
  quote "Hello world!" (JStr "not a date") (JNum 0).

Definition same_quote : Highlight :=
  quote "Same quote." (JStr "2020-03-03T00:00:00Z") (JStr "40").

(** A mail only the clippings parser can read, giving the tuples [ts]. *)
Definition clippings (ts : list Tuple) : Parsers :=
  {| ibooks_parseable := false;
     ibooks_parse := {| res_book := foo; res_highlights := [] |};
     readmill_parseable := false;
     readmill_parse := [];
     kindle_parseable := true;
     kindle_parse := ts |}.

Definition stored_book (id : nat) (display original u : string) : BookDoc :=
  {| book_id := id;
     book_fields :=
       {| bp_title := display;
          bp_metadata :=
            {| bm_author := JUndefined; bm_asin := JUndefined; uuid := u;
               original_title := Some original;
               bm_date := Some "2019-01-01T00:00:00-05:00" |} |} |}.

Definition stored_highlight (id : nat) (text u : string) : HighlightDoc :=
  {| highlight_id := id;
     highlight_fields :=
       {| body := text; hp_title := text; path := "p";
          hp_metadata :=
            {| book_uuid := u; hm_comments := JUndefined; hm_location := JNull;
               hm_source := JUndefined; highlighted_on := None; highlight_by := None |} |} |}.

Definition foo_doc : BookDoc := stored_book 1 "Foo" "Foo" "u-foo".
Definition bar_doc : BookDoc := stored_book 2 "Bar" "Bar" "u-bar".


(** A store whose second book was first synchronised as [New Title] and has
    since been given another display title. *)
Definition shelf : list BookDoc :=
  [stored_book 1 "Foo" "Foo" "u-foo"; stored_book 2 "Corrected Title" "New Title" "u-new"].

Definition candidate (t : string) : BookParams :=
  {| bp_title := t;
     bp_metadata :=
       {| bm_author := JStr "A. Author"; bm_asin := JUndefined; uuid := "uuid-fresh";
          original_title := None; bm_date := None |} |}.

Definition shelved : World :=
  boot {| r_books := shelf; r_highlights := []; r_next_id := 3;
          r_faults := []; r_calls := [] |}.

(** A store that already holds a highlight of the first book, with white
    space around its text. *)
Definition stocked : Remote :=
  {| r_books := [foo_doc; bar_doc];
     r_highlights := [stored_highlight 3 "  Hello world.  " "u-foo"];
     r_next_id := 4;
     r_faults := [];
     r_calls := [] |}.

(** [hello] again, as another export writes it. *)
Definition hello_padded : Highlight :=
  quote " Hello world. " (JStr "2020-03-03T00:00:00Z") (JNum 12).

(** The book a first resolution of [Brand New] creates on the shelf. *)
Definition brand_new_doc : BookDoc :=
  {| book_id := 3;
     book_fields :=
       {| bp_title := "Brand New";
          bp_metadata :=
            {| bm_author := JStr "A. Author"; bm_asin := JUndefined;
               uuid := "uuid-fresh"; original_title := Some "Brand New";
               bm_date := Some "2020-03-03T09:00:00-05:00" |} |} |}.

Definition new_title : Book :=
  {| title := "New Title"; author := JUndefined; asin := JUndefined |}.

Definition baz : Book :=
  {| title := "Baz"; author := JStr "C. Author"; asin := JStr "B000000000" |}.

(** ** The engine *)

Section Engine.

(** The collaborators the source requires and that are not part of it. *)

(** [uuid.v4()]: the identifier drawn when [n] were drawn before. *)
Variable uuid_v4 : nat -> string.
(** [moment().utcOffset('-05:00').format()] at the [n]-th reading of the
    clock. *)
Variable moment_now : nat -> string.
(** [moment(d, [moment.ISO_8601, 'MMMM D, YYYY'])]: [None] when
    [isValid()] is false, otherwise [toISOString()]. *)
Variable moment_iso : JsVal -> option string.
(** [truncate(s, maxLength, options)]; the last argument is the [ellipsis]
    option when one is passed. *)
Variable truncate : string -> nat -> option JsVal -> string.
(** [slug(s, { lower: l })]. *)
Variable slug : string -> bool -> string.

Definition limit : N := 9999%N.

(** *** Collection cache *)

Definition getHighlights : Async (list HighlightDoc) :=
  fun w =>
    match c_highlights (cache w) with
    | Some hs => (Fulfilled hs, w)
    | None =>
        match list_highlights limit (siteleaf w) with
        | (Some hs, r) => (Fulfilled hs, set_cache_highlights hs (set_siteleaf r w))
        | (None, r) => (Rejected RemoteError, set_siteleaf r w)
        end
    end.

Definition getBooks : Async (list BookDoc) :=
  fun w =>
    match c_books (cache w) with
    | Some bs => (Fulfilled bs, w)
    | None =>
        match list_books limit (siteleaf w) with
        | (Some bs, r) => (Fulfilled bs, set_cache_books bs (set_siteleaf r w))
        | (None, r) => (Rejected RemoteError, set_siteleaf r w)
        end
    end.

(** *** Highlight deduplicator *)

Definition highlightBodies (existing : list HighlightDoc) : list string :=
  map (fun h => trim (body (highlight_fields h))) existing.

(** The value [filterOutExistingHighlights] returns.  [book] is the
    resolved book document. *)
Definition filterOutExistingHighlights (book : BookDoc)
  (newHighlights : list Highlight) (existingHighlights : list HighlightDoc)
  : list Highlight :=
  match existingHighlights with
  | [] => newHighlights
  | _ =>
      let existingHighlights :=
        where_book_uuid (uuid (bp_metadata (book_fields book))) existingHighlights in
      match existingHighlights with
      | [] => newHighlights
      | _ =>
          reject (fun h => includes (highlightBodies existingHighlights)
                                    (trim (content h)))
                 newHighlights
      end
  end.

(** The lines [filterOutExistingHighlights] prints on the way. *)
Definition filterOutExistingHighlights_log (book : BookDoc)
  (newHighlights : list Highlight) (existingHighlights : list HighlightDoc)
  : list LogLine :=
  match where_book_uuid (uuid (bp_metadata (book_fields book))) existingHighlights with
  | [] => []
  | scoped =>
      Filtering (length scoped) (bp_title (book_fields book))
      :: map (fun h => FoundExisting (truncate (content h) 30 None))
             (filter (fun h => includes (highlightBodies scoped) (trim (content h)))
                     newHighlights)
  end.

(** *** Highlight writer *)

(** The [params] object of [createHighlight] at the time it is posted;
    [token] is the identifier drawn for the path. *)
Definition createHighlight_params (highlight : Highlight) (book : BookDoc)
  (token : string) : HighlightParams :=
  let truncatedTitle := truncate (bp_title (book_fields book)) 20 (Some JNull) in
  {| body := content highlight;
     hp_title := truncatedTitle +++ ": " +++ truncate (content highlight) 60 None;
     path := slug (truncatedTitle +++ "-" +++ token) true;
     hp_metadata :=
       {| book_uuid := uuid (bp_metadata (book_fields book));
          hm_comments := comments highlight;
          hm_location :=
            if ToBoolean (location highlight)
            then JStr (js_String (location highlight))
            else JNull;
          hm_source := source highlight;
          highlighted_on :=
            if ToBoolean (date highlight) then moment_iso (date highlight) else None;
          highlight_by :=
            if ToBoolean (user highlight) then Some (user highlight) else None |} |}.

(** What [createHighlight] prints before it posts. *)
Definition createHighlight_log (highlight : Highlight) : list LogLine :=
  if ToBoolean (date highlight) then
    match moment_iso (date highlight) with
    | Some _ => []
    | None => [InvalidDate (date highlight)]
    end
  else [].

(** The promise is fulfilled with the value of [cache.highlights.push],
    the new length. *)
Definition createHighlight (highlight : Highlight) (book : BookDoc) : Async nat :=
  fun w =>
    let params := createHighlight_params highlight book (uuid_v4 (entropy w)) in
    let w := console_logs (createHighlight_log highlight) (draw w) in
    match create_highlight params (siteleaf w) with
    | (Some doc, r) =>
        let w := set_siteleaf r w in
        match c_highlights (cache w) with
        | Some hs => (Fulfilled (length (hs ++ [doc])), set_cache_highlights (hs ++ [doc]) w)
        | None => (Rejected TypeError, w)
        end
    | (None, r) => (Rejected RemoteError, set_siteleaf r w)
    end.

(** The iteratee of the [async.eachSeries] in [createHighlights]: [n] is
    [filteredHighlights.length] and [i] the counter, which starts at 1. *)
Definition write_one (book : BookDoc) (n : nat) (i : nat) (highlight : Highlight)
  : Async unit :=
  _ <- createHighlight highlight book ;;
  fun w => (Fulfilled tt, console_log (Created i n (bp_title (book_fields book))) w).

Definition createHighlights (highlights : list Highlight) (book : BookDoc)
  : Async unit :=
  existing <- getHighlights ;;
  fun w =>
    let filteredHighlights := filterOutExistingHighlights book highlights existing in
    let w := console_logs (filterOutExistingHighlights_log book highlights existing) w in
    match filteredHighlights with
    | [] => (Fulfilled tt, w)
    | _ =>
        let n := length filteredHighlights in
        eachSeries (write_one book n) 1 filteredHighlights
          (console_log (Creating n (bp_title (book_fields book))) w)
    end.

(** *** Book resolver *)

Definition createBook (params : BookParams) : Async BookDoc :=
  fun w =>
    let params :=
      {| bp_title := bp_title params;
         bp_metadata :=
           {| bm_author := bm_author (bp_metadata params);
              bm_asin := bm_asin (bp_metadata params);
              uuid := uuid (bp_metadata params);
              original_title := Some (bp_title params);
              bm_date := Some (moment_now (clock w)) |} |} in
    let w := tick w in
    match create_book params (siteleaf w) with
    | (Some doc, r) =>
        let w := set_siteleaf r w in
        match c_books (cache w) with
        | Some bs => (Fulfilled doc, set_cache_books (bs ++ [doc]) w)
        | None => (Rejected TypeError, w)
        end
    | (None, r) => (Rejected RemoteError, set_siteleaf r w)
    end.

Definition getBook (bookParams : BookParams) : Async BookDoc :=
  books <- getBooks ;;
  match findWhere_original_title (bp_title bookParams) books with
  | Some existingBook => resolve existingBook
  | None => createBook bookParams
  end.

(** *** Synchronisation driver *)

Definition timerName (book : Book) : string :=
  "addBookAndHighlights__" +++ slug (truncate (title book) 20 (Some JNull)) false.

Definition addBookAndHighlights (book : Book) (highlights : list Highlight)
  : Async unit :=
  match highlights with
  | [] => resolve tt
  | _ =>
      fun w =>
        let bookParams :=
          {| bp_title := title book;
             bp_metadata :=
               {| bm_author := author book;
                  bm_asin := asin book;
                  uuid := uuid_v4 (entropy w);
                  original_title := None;
                  bm_date := None |} |} in
        (resolved <- getBook bookParams ;;
         _ <- createHighlights highlights resolved ;;
         fun w => (Fulfilled tt, console_log (TimeEnd (timerName book)) w))
          (draw (console_log (Time (timerName book)) w))
  end.

Definition results (mail : Parsers) : list Tuple :=
  let results := [] in
  let results := if ibooks_parseable mail then results ++ [ibooks_parse mail] else results in
  let results := if readmill_parseable mail then results ++ readmill_parse mail else results in
  if kindle_parseable mail then results ++ kindle_parse mail else results.

(** The iteratee of the [async.eachSeries] in [parse]. *)
Definition sync_one (_ : nat) (result : Tuple) : Async unit :=
  addBookAndHighlights (res_book result) (res_highlights result).

(** The [async.eachSeries] of [parse] over the collected results. *)
Definition synchronize (results : list Tuple) : Async unit :=
  eachSeries sync_one 0 results.

Definition parse (mail : Parsers) : Async unit :=
  fun w =>
    (_ <- synchronize (results mail) ;;
     fun w => (Fulfilled tt, console_log (TimeEnd "complete") w))
      (console_log (Time "complete") w).

(** ** Vocabulary of the properties *)

(** A string made of white space only. *)
Definition all_whitespace (s : string) : Prop :=
  forall c, In c (list_ascii_of_string s) -> is_whitespace c = true.

(** The deduplication rule in the words of the specification: a candidate
    is a duplicate when some existing highlight of the same book has the
    same trimmed text. *)
Definition is_duplicate (book : BookDoc) (existing : list HighlightDoc)
  (h : Highlight) : bool :=
  existsb
    (fun e =>
       (book_uuid (hp_metadata (highlight_fields e)) =? uuid (bp_metadata (book_fields book)))
       && (trim (body (highlight_fields e)) =? trim (content h)))
    existing.

(** [filterNew] as the specification words it. *)
Definition filterNew_spec (book : BookDoc) (candidates : list Highlight)
  (existing : list HighlightDoc) : list Highlight :=
  filter (fun h => negb (is_duplicate book existing h)) candidates.

(** Whether a promise was fulfilled. *)
Definition fulfilled {A} (o : Outcome A) : bool :=
  match o with Fulfilled _ => true | _ => false end.

(** [R true] relates the states before and after a step whose promise is
    fulfilled, [R false] those of a step whose promise is not.  An operation
    respects [R] when each of its runs does. *)
Definition respects (R : bool -> World -> World -> Prop) {A} (p : Async A) : Prop :=
  forall w, R (fulfilled (fst (p w))) w (snd (p w)).

(** Whether a recorded call is a listing of collection [c]. *)
Definition is_read (c : Collection) (call : Request * bool) : bool :=
  match fst call, c with
  | GET_documents Books _, Books => true
  | GET_documents Highlights _, Highlights => true
  | _, _ => false
  end.

(** How many remote reads of collection [c] the store has received. *)
Definition reads (c : Collection) (calls : list (Request * bool)) : nat :=
  length (filter (is_read c) calls).

(** An invocation of any operation of the engine. *)
Inductive Invocation : Type :=
| call_getHighlights
| call_getBooks
| call_getBook (bookParams : BookParams)
| call_createBook (params : BookParams)
| call_createHighlight (highlight : Highlight) (book : BookDoc)
| call_createHighlights (highlights : list Highlight) (book : BookDoc)
| call_addBookAndHighlights (book : Book) (highlights : list Highlight)
| call_parse (mail : Parsers).

(** The state an invocation leaves. *)
Definition invoke (i : Invocation) (w : World) : World :=
  match i with
  | call_getHighlights => snd (getHighlights w)
  | call_getBooks => snd (getBooks w)
  | call_getBook p => snd (getBook p w)
  | call_createBook p => snd (createBook p w)
  | call_createHighlight h b => snd (createHighlight h b w)
  | call_createHighlights hs b => snd (createHighlights hs b w)
  | call_addBookAndHighlights b hs => snd (addBookAndHighlights b hs w)
  | call_parse mail => snd (parse mail w)
  end.

(** A process lifetime: invocations one after the other. *)
Definition invoke_all (ops : list Invocation) (w : World) : World :=
  fold_left (fun w i => invoke i w) ops w.

(** Once the highlight listing is cached, a step keeps it cached, only
    appends to it, and reads the collection no more. *)
Definition keeps_highlights (_ : bool) (w w' : World) : Prop :=
  forall hs, c_highlights (cache w) = Some hs ->
             reads Highlights (r_calls (siteleaf w'))
             = reads Highlights (r_calls (siteleaf w))
             /\ exists more, c_highlights (cache w') = Some (hs ++ more).

(** The same for the book listing. *)
Definition keeps_books (_ : bool) (w w' : World) : Prop :=
  forall bs, c_books (cache w) = Some bs ->
             reads Books (r_calls (siteleaf w'))
             = reads Books (r_calls (siteleaf w))
             /\ exists more, c_books (cache w') = Some (bs ++ more).

(** A fulfilled step is one all of whose remote calls succeeded. *)
Definition calls_succeeded (f : bool) (w w' : World) : Prop :=
  exists new,
    r_calls (siteleaf w') = r_calls (siteleaf w) ++ new
    /\ (f = true -> forallb snd new = true).


(** The cache mirrors the store: a cached listing is the collection as the
    store holds it.  It holds when a process starts and the engine keeps
    it. *)
Definition coherent (w : World) : Prop :=
  match c_books (cache w) with
  | Some bs => bs = r_books (siteleaf w)
  | None => True
  end
  /\ match c_highlights (cache w) with
     | Some hs => hs = r_highlights (siteleaf w)
     | None => True
     end.

(** A step that keeps the cache a mirror of the store. *)
Definition stays_coherent (_ : bool) (w w' : World) : Prop :=
  coherent w -> coherent w'.

(** The store only ever gains documents. *)
Definition store_grows (_ : bool) (w w' : World) : Prop :=
  exists bs hs,
    r_books (siteleaf w') = r_books (siteleaf w) ++ bs
    /\ r_highlights (siteleaf w') = r_highlights (siteleaf w) ++ hs.

(** A tuple is settled in a store when its book resolves there and every
    one of its highlights is a duplicate of a stored highlight of that
    book. *)
Definition settled (t : Tuple) (r : Remote) : Prop :=
  res_highlights t = []
  \/ exists b,
      findWhere_original_title (title (res_book t)) (r_books r) = Some b
      /\ forall h, In h (res_highlights t) -> is_duplicate b (r_highlights r) h = true.

(** Whether a recorded call asks the store to create a document. *)
Definition is_create (call : Request * bool) : bool :=
  match fst call with
  | GET_documents _ _ => false
  | POST_book _ => true
  | POST_highlight _ => true
  end.

(** How many create requests the store has received. *)
Definition creates (calls : list (Request * bool)) : nat :=
  length (filter is_create calls).

(** A step that leaves both collections as they are and asks the store to
    create nothing. *)
Definition only_reads (w w' : World) : Prop :=
  r_books (siteleaf w') = r_books (siteleaf w)
  /\ r_highlights (siteleaf w') = r_highlights (siteleaf w)
  /\ creates (r_calls (siteleaf w')) = creates (r_calls (siteleaf w)).

(** The store [r] as a later process finds it, with the failures [fs] in
    wait for that process. *)
Definition with_faults (fs : list bool) (r : Remote) : Remote :=
  {| r_books := r_books r;
     r_highlights := r_highlights r;
     r_next_id := r_next_id r;
     r_faults := fs;
     r_calls := r_calls r |}.

(** Whether a recorded call concerns the book collection. *)
Definition is_book_call (call : Request * bool) : bool :=
  match fst call with
  | GET_documents Books _ => true
  | POST_book _ => true
  | _ => false
  end.

(** Whether a recorded call concerns the highlight collection. *)
Definition is_highlight_call (call : Request * bool) : bool :=
  match fst call with
  | GET_documents Highlights _ => true
  | POST_highlight _ => true
  | _ => false
  end.

(** A step that leaves the book collection alone: the store's books, the
    cached books and the book requests received are as before. *)
Definition books_untouched (_ : bool) (w w' : World) : Prop :=
  r_books (siteleaf w') = r_books (siteleaf w)
  /\ c_books (cache w') = c_books (cache w)
  /\ filter is_book_call (r_calls (siteleaf w'))
     = filter is_book_call (r_calls (siteleaf w)).

(** A step that leaves the highlight collection alone. *)
Definition highlights_untouched (_ : bool) (w w' : World) : Prop :=
  r_highlights (siteleaf w') = r_highlights (siteleaf w)
  /\ c_highlights (cache w') = c_highlights (cache w)
  /\ filter is_highlight_call (r_calls (siteleaf w'))
     = filter is_highlight_call (r_calls (siteleaf w)).

(** A store that will accept every request it receives from now on. *)
Definition reliable (r : Remote) : bool := forallb negb (r_faults r).

(** The documents the store makes of the candidates [l] written one after
    the other for [book], the first with identifier [id] and with the
    [token]-th drawn uuid in its path. *)
Fixpoint written_docs (book : BookDoc) (id token : nat) (l : list Highlight)
  : list HighlightDoc :=
  match l with
  | [] => []
  | h :: rest =>
      {| highlight_id := id;
         highlight_fields := createHighlight_params h book (uuid_v4 token) |}
      :: written_docs book (S id) (S token) rest
  end.

(** The lines printed while the candidates [l] are written, [i] being the
    position of the first among the [n] to write. *)
Fixpoint progress (book : BookDoc) (n i : nat) (l : list Highlight) : list LogLine :=
  match l with
  | [] => []
  | h :: rest =>
      createHighlight_log h
      ++ Created i n (bp_title (book_fields book)) :: progress book n (S i) rest
  end.

(** Whether a request asks the store to create a highlight. *)
Definition is_highlight_post (q : Request) : bool :=
  match q with
  | POST_highlight _ => true
  | _ => false
  end.

(** The calls [new] all succeeded but the last, a request of the kind [p]
    that the store refused. *)
Definition stopped_at (p : Request -> bool) (new : list (Request * bool)) : Prop :=
  exists pre q,
    new = pre ++ [(q, false)] /\ forallb snd pre = true /\ p q = true.

(** What the settlement of a tuple's promise tells of the calls made for
    it: fulfilled, they all succeeded; rejected, with a remote error, the
    last one failed and was a listing or the creation of the book; never
    settled, the last one failed and was the creation of a highlight. *)
Definition told {A} (o : Outcome A) (new : list (Request * bool)) : Prop :=
  match o with
  | Fulfilled _ => forallb snd new = true
  | Rejected e =>
      e = RemoteError /\ stopped_at (fun q => negb (is_highlight_post q)) new
  | Pending => stopped_at is_highlight_post new
  end.

Definition tells {A} (o : Outcome A) (w w' : World) : Prop :=
  exists new, r_calls (siteleaf w') = r_calls (siteleaf w) ++ new /\ told o new.

(** The same for a whole run, whose promise is never rejected. *)
Definition told_of_run {A} (o : Outcome A) (new : list (Request * bool)) : Prop :=
  match o with
  | Fulfilled _ => forallb snd new = true
  | Rejected _ => False
  | Pending => stopped_at (fun _ => true) new
  end.

Definition tells_of_run {A} (o : Outcome A) (w w' : World) : Prop :=
  exists new, r_calls (siteleaf w') = r_calls (siteleaf w) ++ new /\ told_of_run o new.

(** No two books of the list have the same original title. *)
Definition titles_unique (bs : list BookDoc) : Prop :=
  forall t, length (filter (has_original_title t) bs) <= 1.

(** A step that keeps the store free of books with the same original title,
    the cache being a mirror of the store. *)
Definition keeps_titles (_ : bool) (w w' : World) : Prop :=
  coherent w /\ titles_unique (r_books (siteleaf w)) ->
  coherent w' /\ titles_unique (r_books (siteleaf w')).

(** Whether a stored highlight belongs to the book with uuid [u] and has the
    trimmed text [c]. *)
Definition same_text (u c : string) (e : HighlightDoc) : bool :=
  (book_uuid (hp_metadata (highlight_fields e)) =? u)
  && (trim (body (highlight_fields e)) =? c).

(** No two highlights of the list belong to the same book and have the same
    trimmed text. *)
Definition bodies_unique (hs : list HighlightDoc) : Prop :=
  forall u c, length (filter (same_text u c) hs) <= 1.

(** The candidates of a batch have pairwise different trimmed texts. *)
Definition distinct_texts (l : list Highlight) : Prop :=
  NoDup (map (fun h => trim (content h)) l).

(** Every highlight of [hs] carries the uuid of a book of [bs]. *)
Definition owned_by_stored_books (hs : list HighlightDoc) (bs : list BookDoc) : Prop :=
  forall h, In h hs ->
            exists b, In b bs
                      /\ uuid (bp_metadata (book_fields b))
                         = book_uuid (hp_metadata (highlight_fields h)).

(** ** Properties *)

(** *** Trimming *)

Lemma trimLeft_split (s : string) :
  exists l, s = l +++ trimLeft s /\ all_whitespace l.
Proof.
  induction s as [|c r [l [E W]]]; simpl.
  - exists EmptyString. split; [reflexivity | intros c []].
  - destruct (is_whitespace c) eqn:Hc.
    + exists (String c l). split.
      * simpl. now rewrite <- E.
      * intros d [<- | Hd]; [assumption | now apply W].
    + exists EmptyString. split; [reflexivity | intros d []].
Qed.

Lemma trimRight_split (s : string) :
  exists r, s = trimRight s +++ r /\ all_whitespace r.
Proof.
  induction s as [|c s [r [E W]]]; simpl.
  - exists EmptyString. split; [reflexivity | intros c []].
  - destruct (is_whitespace c) eqn:Hc; simpl.
    + destruct (trimRight s =? EmptyString) eqn:Hr.
      * apply String.eqb_eq in Hr. rewrite Hr in E. simpl in E. subst s.
        exists (String c r). split; [reflexivity|].
        intros d [<- | Hd]; [assumption | now apply W].
      * exists r. split; [simpl; now rewrite <- E | assumption].
    + exists r. split; [simpl; now rewrite <- E | assumption].
Qed.

(** [trim] removes a run of white space at each end and nothing else. *)
Lemma trim_split (s : string) :
  exists l r, s = l +++ trim s +++ r /\ all_whitespace l /\ all_whitespace r.
Proof.
  destruct (trimLeft_split s) as [l [El Wl]].
  destruct (trimRight_split (trimLeft s)) as [r [Er Wr]].
  exists l, r. unfold trim. now rewrite <- Er.
Qed.

Lemma trimLeft_head (s : string) :
  match trimLeft s with
  | EmptyString => True
  | String c _ => is_whitespace c = false
  end.
Proof.
  induction s as [|c r IH]; simpl; [exact I|].
  destruct (is_whitespace c) eqn:Hc; [exact IH | exact Hc].
Qed.

Lemma trimRight_head (s : string) :
  match s with
  | EmptyString => True
  | String c _ =>
      is_whitespace c = false ->
      exists r, trimRight s = String c r
  end.
Proof.
  destruct s as [|c r]; [exact I|]. simpl. intros ->. simpl. eauto.
Qed.

(** What is left after trimming starts with no white space. *)
Lemma trim_head (s : string) :
  match trim s with
  | EmptyString => True
  | String c _ => is_whitespace c = false
  end.
Proof.
  unfold trim. pose proof (trimLeft_head s) as H.
  pose proof (trimRight_head (trimLeft s)) as R.
  destruct (trimLeft s) as [|c r]; simpl; [exact I|].
  destruct (R H) as [r' E]. simpl in E. now rewrite E.
Qed.

Lemma trimRight_last (s t : string) (c : ascii) :
  trimRight s = t +++ String c EmptyString -> is_whitespace c = false.
Proof.
  revert t. induction s as [|a r IH]; intros t E; simpl in E.
  - destruct t; discriminate.
  - destruct (is_whitespace a) eqn:Ha; simpl in E.
    + destruct (trimRight r =? EmptyString) eqn:Hr.
      * destruct t; discriminate.
      * destruct t as [|b t]; simpl in E.
        -- injection E as _ E. rewrite E in Hr. discriminate.
        -- injection E as _ E. exact (IH t E).
    + destruct t as [|b t]; simpl in E.
      * now injection E as <- _.
      * injection E as _ E. exact (IH t E).
Qed.

(** What is left after trimming ends with no white space. *)
Lemma trim_last (s t : string) (c : ascii) :
  trim s = t +++ String c EmptyString -> is_whitespace c = false.
Proof. apply trimRight_last. Qed.

(** *** Deduplication *)

Lemma includes_scoped (book : BookDoc) (existing : list HighlightDoc) (h : Highlight) :
  includes
    (highlightBodies (where_book_uuid (uuid (bp_metadata (book_fields book))) existing))
    (trim (content h))
  = is_duplicate book existing h.
Proof.
  unfold includes, highlightBodies, where_book_uuid, is_duplicate.
  induction existing as [|e es IH]; simpl; [reflexivity|].
  destruct (book_uuid (hp_metadata (highlight_fields e))
            =? uuid (bp_metadata (book_fields book))); simpl.
  - now rewrite IH.
  - exact IH.
Qed.

Lemma filter_keep_all {A} (l : list A) : filter (fun _ => true) l = l.
Proof. induction l as [|x l IH]; simpl; [reflexivity | now rewrite IH]. Qed.

Lemma filterOutExistingHighlights_reject (book : BookDoc)
  (newHighlights : list Highlight) (existing : list HighlightDoc) :
  filterOutExistingHighlights book newHighlights existing
  = reject
      (fun h =>
         includes
           (highlightBodies
              (where_book_uuid (uuid (bp_metadata (book_fields book))) existing))
           (trim (content h)))
      newHighlights.
Proof.
  unfold filterOutExistingHighlights.
  destruct existing as [|e es].
  - simpl. unfold reject. simpl. now rewrite filter_keep_all.
  - destruct (where_book_uuid _ (e :: es)) as [|s ss] eqn:E; [|reflexivity].
    unfold reject. simpl. now rewrite filter_keep_all.
Qed.

Lemma filterOutExistingHighlights_spec (book : BookDoc)
  (newHighlights : list Highlight) (existing : list HighlightDoc) :
  filterOutExistingHighlights book newHighlights existing
  = filterNew_spec book newHighlights existing.
Proof.
  rewrite filterOutExistingHighlights_reject.
  unfold reject, filterNew_spec.
  apply filter_ext. intros h. now rewrite includes_scoped.
Qed.



(** *** Skipping empty tuples *)

(** C9. Synchronising a tuple whose highlight list is empty issues no
    remote call and leaves both collection caches unchanged: the promise
    is fulfilled at once and the whole process state is as before. *)
Theorem skip_empty_tuple (book : Book) (w : World) :
  let (outcome, w') := addBookAndHighlights book [] w in
  outcome = Fulfilled tt
  /\ r_calls (siteleaf w') = r_calls (siteleaf w)
  /\ c_books (cache w') = c_books (cache w)
  /\ c_highlights (cache w') = c_highlights (cache w)
  /\ w' = w.
Proof. simpl. repeat split. Qed.

(** *** The record a highlight is persisted as *)

(** [createHighlight] sends exactly one request, the POST of its [params],
    whatever the state. *)
Lemma createHighlight_calls (highlight : Highlight) (book : BookDoc) (w : World) :
  r_calls (siteleaf (snd (createHighlight highlight book w)))
  = r_calls (siteleaf w)
    ++ [(POST_highlight (createHighlight_params highlight book (uuid_v4 (entropy w))),
         negb (next_fault (siteleaf w)))].
Proof.
  unfold createHighlight, create_highlight. simpl.
  destruct (next_fault (siteleaf w)) eqn:F; simpl; rewrite ?F; [reflexivity|].
  destruct (c_highlights (cache w)); simpl; rewrite ?F; reflexivity.
Qed.



(** *** Dates *)




(** *** Book resolution *)

Lemma has_original_title_iff (t : string) (b : BookDoc) :
  has_original_title t b = true
  <-> original_title (bp_metadata (book_fields b)) = Some t.
Proof.
  unfold has_original_title.
  destruct (original_title (bp_metadata (book_fields b))) as [t'|].
  - rewrite String.eqb_eq. split; congruence.
  - split; discriminate.
Qed.

Lemma find_first {A} (f : A -> bool) (pre : list A) (x : A) (post : list A) :
  (forall y, In y pre -> f y = false) ->
  f x = true ->
  find f (pre ++ x :: post) = Some x.
Proof.
  intros Hpre Hx. induction pre as [|y pre IH]; simpl.
  - now rewrite Hx.
  - rewrite (Hpre y (or_introl eq_refl)). apply IH.
    intros z Hz. apply Hpre. now right.
Qed.

Lemma find_absent {A} (f : A -> bool) (l : list A) :
  (forall y, In y l -> f y = false) -> find f l = None.
Proof.
  induction l as [|y l IH]; simpl; intros H; [reflexivity|].
  rewrite (H y (or_introl eq_refl)). apply IH. intros z Hz. apply H. now right.
Qed.

(** The listing operations never write: the store's collections are as
    before, and the only request they may add is their own GET. *)
Lemma getBooks_reads_only (w : World) :
  let w1 := snd (getBooks w) in
  r_books (siteleaf w1) = r_books (siteleaf w)
  /\ r_highlights (siteleaf w1) = r_highlights (siteleaf w)
  /\ (r_calls (siteleaf w1) = r_calls (siteleaf w)
      \/ r_calls (siteleaf w1)
         = r_calls (siteleaf w)
           ++ [(GET_documents Books limit, negb (next_fault (siteleaf w)))]).
Proof.
  unfold getBooks, list_books. cbv zeta.
  destruct (c_books (cache w)); simpl; [auto|].
  destruct (next_fault (siteleaf w)) eqn:F; simpl; rewrite ?F; auto.
Qed.

Lemma createBook_calls (params : BookParams) (w : World) :
  r_calls (siteleaf (snd (createBook params w)))
  = r_calls (siteleaf w)
    ++ [(POST_book
           {| bp_title := bp_title params;
              bp_metadata :=
                {| bm_author := bm_author (bp_metadata params);
                   bm_asin := bm_asin (bp_metadata params);
                   uuid := uuid (bp_metadata params);
                   original_title := Some (bp_title params);
                   bm_date := Some (moment_now (clock w)) |} |},
         negb (next_fault (siteleaf w)))].
Proof.
  unfold createBook, create_book. simpl.
  destruct (next_fault (siteleaf w)) eqn:F; simpl; rewrite ?F; [reflexivity|].
  destruct (c_books (cache w)); simpl; rewrite ?F; reflexivity.
Qed.

(** C4. Given the book listing, [getBook] returns the first record whose
    [metadata.original_title] equals the candidate's title, as it stands in
    the listing and without any remote write, so that the candidate's own
    uuid and the rest of its fields are dropped; a book is created
    remotely only when no record has that original title. *)
Theorem resolve_book_by_original_title (bookParams : BookParams) (w w1 : World)
  (books : list BookDoc) :
  getBooks w = (Fulfilled books, w1) ->
  (forall pre existing post,
      books = pre ++ existing :: post ->
      (forall b, In b pre ->
                 original_title (bp_metadata (book_fields b))
                 <> Some (bp_title bookParams)) ->
      original_title (bp_metadata (book_fields existing)) = Some (bp_title bookParams) ->
      getBook bookParams w = (Fulfilled existing, w1)
      /\ r_books (siteleaf w1) = r_books (siteleaf w)
      /\ r_highlights (siteleaf w1) = r_highlights (siteleaf w)
      /\ forall q ok, In (q, ok) (r_calls (siteleaf w1)) ->
                      In (q, ok) (r_calls (siteleaf w))
                      \/ q = GET_documents Books limit)
  /\ ((forall b, In b books ->
                 original_title (bp_metadata (book_fields b))
                 <> Some (bp_title bookParams)) ->
      getBook bookParams w = createBook bookParams w1
      /\ exists params ok,
          r_calls (siteleaf (snd (getBook bookParams w)))
          = r_calls (siteleaf w1) ++ [(POST_book params, ok)]
          /\ bp_title params = bp_title bookParams
          /\ original_title (bp_metadata params) = Some (bp_title bookParams)
          /\ uuid (bp_metadata params) = uuid (bp_metadata bookParams)).
Proof.
  intros G. split.
  - intros pre existing post E Hpre Hx.
    pose proof (getBooks_reads_only w) as R. rewrite G in R. simpl in R.
    destruct R as [Rb [Rh Rc]].
    split; [|split; [exact Rb | split; [exact Rh|]]].
    + unfold getBook, andThen. rewrite G.
      unfold findWhere_original_title. rewrite E, find_first; [reflexivity| |].
      * intros y Hy. specialize (Hpre y Hy).
        destruct (has_original_title (bp_title bookParams) y) eqn:T; [|reflexivity].
        apply has_original_title_iff in T. contradiction.
      * now apply has_original_title_iff.
    + intros q ok Hin. destruct Rc as [Rc | Rc]; rewrite Rc in Hin; [now left|].
      apply in_app_or in Hin as [Hin | [[= <- _] | []]]; [now left | now right].
  - intros Hnone.
    assert (E : getBook bookParams w = createBook bookParams w1).
    { unfold getBook, andThen. rewrite G.
      unfold findWhere_original_title. rewrite find_absent; [reflexivity|].
      intros y Hy. specialize (Hnone y Hy).
      destruct (has_original_title (bp_title bookParams) y) eqn:T; [|reflexivity].
      apply has_original_title_iff in T. contradiction. }
    split; [exact E|]. rewrite E, createBook_calls.
    eexists _, _. split; [reflexivity|]. simpl. auto.
Qed.

(** *** Relations that every operation of the engine respects *)

(** [R true] relates the states before and after a step whose promise is
    fulfilled, [R false] those of a step whose promise is not.  When the
    primitive steps respect [R], so does every operation built from them
    with [then] and [eachSeries]. *)
Section Respect.

Variable R : bool -> World -> World -> Prop.

Hypothesis R_refl : forall w, R true w w.
Hypothesis R_trans : forall f a b c, R true a b -> R f b c -> R f a c.
Hypothesis R_console : forall ls w, R true w (console_logs ls w).
Hypothesis R_draw : forall w, R true w (draw w).
Hypothesis R_getHighlights :
  forall w, R (fulfilled (fst (getHighlights w))) w (snd (getHighlights w)).
Hypothesis R_getBooks :
  forall w, R (fulfilled (fst (getBooks w))) w (snd (getBooks w)).
Hypothesis R_createHighlight :
  forall h b w,
    R (fulfilled (fst (createHighlight h b w))) w (snd (createHighlight h b w)).
Hypothesis R_createBook :
  forall p w, R (fulfilled (fst (createBook p w))) w (snd (createBook p w)).

Lemma respects_resolve {A} (a : A) : respects R (resolve a).
Proof. intros w. apply R_refl. Qed.

Lemma respects_log {A} (a : A) (ls : list LogLine) :
  respects R (fun w => (Fulfilled a, console_logs ls w)).
Proof. intros w. apply R_console. Qed.

Lemma respects_andThen {A B} (p : Async A) (f : A -> Async B) :
  respects R p -> (forall a, respects R (f a)) -> respects R (andThen p f).
Proof.
  intros Hp Hf w. unfold andThen. specialize (Hp w).
  destruct (p w) as [[a| e |] w1]; simpl in *; try exact Hp.
  eapply R_trans; [exact Hp | apply Hf].
Qed.

Lemma respects_eachSeries {A B} (iteratee : nat -> A -> Async B) (items : list A) :
  (forall i x, respects R (iteratee i x)) ->
  forall i, respects R (eachSeries iteratee i items).
Proof.
  intros Hit. induction items as [|x rest IH]; intros i w; simpl.
  - apply R_refl.
  - specialize (Hit i x w).
    destruct (iteratee i x w) as [[b| e |] w1]; simpl in *; try exact Hit.
    eapply R_trans; [exact Hit | apply IH].
Qed.

Lemma respects_createHighlights (hs : list Highlight) (b : BookDoc) :
  respects R (createHighlights hs b).
Proof.
  unfold createHighlights. apply respects_andThen; [exact R_getHighlights|].
  intros existing w.
  destruct (filterOutExistingHighlights b hs existing) as [|x l] eqn:E.
  - apply R_console.
  - set (w1 := console_logs _ w). set (w2 := console_log _ w1).
    apply (R_trans _ w w1); [apply R_console|].
    apply (R_trans _ w1 w2); [apply R_console|].
    apply respects_eachSeries. intros i h.
    apply respects_andThen; [intros w'; apply R_createHighlight|].
    intros _. apply respects_log.
Qed.

Lemma respects_getBook (p : BookParams) : respects R (getBook p).
Proof.
  unfold getBook. apply respects_andThen; [exact R_getBooks|].
  intros books. destruct (findWhere_original_title _ books).
  - apply respects_resolve.
  - intros w. apply R_createBook.
Qed.

Lemma respects_addBookAndHighlights (book : Book) (hs : list Highlight) :
  respects R (addBookAndHighlights book hs).
Proof.
  destruct hs as [|h hs]; [apply respects_resolve|].
  intros w. unfold addBookAndHighlights.
  set (w1 := console_log _ w). set (w2 := draw w1).
  apply (R_trans _ w w1); [apply R_console|].
  apply (R_trans _ w1 w2); [apply R_draw|].
  apply respects_andThen; [apply respects_getBook|].
  intros b. apply respects_andThen; [apply respects_createHighlights|].
  intros _. apply respects_log.
Qed.

Lemma respects_synchronize (ts : list Tuple) : respects R (synchronize ts).
Proof.
  apply respects_eachSeries. intros i t. apply respects_addBookAndHighlights.
Qed.

Lemma respects_parse (mail : Parsers) : respects R (parse mail).
Proof.
  intros w. unfold parse.
  set (w1 := console_log _ w).
  apply (R_trans _ w w1); [apply R_console|].
  apply respects_andThen; [apply respects_synchronize|].
  intros _. apply respects_log.
Qed.

End Respect.

(** *** Memoised listings *)

Lemma reads_app (c : Collection) (xs ys : list (Request * bool)) :
  reads c (xs ++ ys) = reads c xs + reads c ys.
Proof. unfold reads. now rewrite filter_app, length_app. Qed.

Ltac primitive w :=
  unfold getHighlights, getBooks, createHighlight, createBook,
    list_highlights, list_books, create_highlight, create_book;
  simpl;
  destruct (c_highlights (cache w)) eqn:?Ch;
  destruct (c_books (cache w)) eqn:?Cb;
  destruct (next_fault (siteleaf w)) eqn:?F;
  simpl; rewrite ?F, ?Ch, ?Cb; simpl.

Lemma getHighlights_calls (w : World) :
  r_calls (siteleaf (snd (getHighlights w)))
  = r_calls (siteleaf w)
    ++ match c_highlights (cache w) with
       | Some _ => []
       | None => [(GET_documents Highlights limit, negb (next_fault (siteleaf w)))]
       end.
Proof. primitive w; rewrite ?app_nil_r, ?F; reflexivity. Qed.

Lemma getBooks_calls (w : World) :
  r_calls (siteleaf (snd (getBooks w)))
  = r_calls (siteleaf w)
    ++ match c_books (cache w) with
       | Some _ => []
       | None => [(GET_documents Books limit, negb (next_fault (siteleaf w)))]
       end.
Proof. primitive w; rewrite ?app_nil_r, ?F; reflexivity. Qed.

Lemma keeps_highlights_refl (f : bool) (w : World) : keeps_highlights f w w.
Proof. intros hs H. split; [reflexivity|]. exists []. now rewrite app_nil_r. Qed.

Lemma keeps_highlights_trans (f g h : bool) (a b c : World) :
  keeps_highlights f a b -> keeps_highlights g b c -> keeps_highlights h a c.
Proof.
  intros Hab Hbc hs H. destruct (Hab hs H) as [E1 [m1 C1]].
  destruct (Hbc _ C1) as [E2 [m2 C2]]. split; [congruence|].
  exists (m1 ++ m2). now rewrite app_assoc.
Qed.

Lemma keeps_books_refl (f : bool) (w : World) : keeps_books f w w.
Proof. intros bs H. split; [reflexivity|]. exists []. now rewrite app_nil_r. Qed.

Lemma keeps_books_trans (f g h : bool) (a b c : World) :
  keeps_books f a b -> keeps_books g b c -> keeps_books h a c.
Proof.
  intros Hab Hbc bs H. destruct (Hab bs H) as [E1 [m1 C1]].
  destruct (Hbc _ C1) as [E2 [m2 C2]]. split; [congruence|].
  exists (m1 ++ m2). now rewrite app_assoc.
Qed.

Ltac keeps_prim w :=
  intros ? H; primitive w; try discriminate; injection H as <-;
  rewrite ?reads_app; unfold reads; simpl;
  (split; [lia | first [ exists nil; now rewrite app_nil_r | eexists; reflexivity ] ]).

Lemma keeps_highlights_getHighlights (w : World) :
  keeps_highlights (fulfilled (fst (getHighlights w))) w (snd (getHighlights w)).
Proof. keeps_prim w. Qed.

Lemma keeps_highlights_getBooks (w : World) :
  keeps_highlights (fulfilled (fst (getBooks w))) w (snd (getBooks w)).
Proof. keeps_prim w. Qed.

Lemma keeps_highlights_createHighlight (h : Highlight) (b : BookDoc) (w : World) :
  keeps_highlights (fulfilled (fst (createHighlight h b w))) w
    (snd (createHighlight h b w)).
Proof. keeps_prim w. Qed.

Lemma keeps_highlights_createBook (p : BookParams) (w : World) :
  keeps_highlights (fulfilled (fst (createBook p w))) w (snd (createBook p w)).
Proof. keeps_prim w. Qed.

Lemma keeps_books_getHighlights (w : World) :
  keeps_books (fulfilled (fst (getHighlights w))) w (snd (getHighlights w)).
Proof. keeps_prim w. Qed.

Lemma keeps_books_getBooks (w : World) :
  keeps_books (fulfilled (fst (getBooks w))) w (snd (getBooks w)).
Proof. keeps_prim w. Qed.

Lemma keeps_books_createHighlight (h : Highlight) (b : BookDoc) (w : World) :
  keeps_books (fulfilled (fst (createHighlight h b w))) w
    (snd (createHighlight h b w)).
Proof. keeps_prim w. Qed.

Lemma keeps_books_createBook (p : BookParams) (w : World) :
  keeps_books (fulfilled (fst (createBook p w))) w (snd (createBook p w)).
Proof. keeps_prim w. Qed.

Lemma keeps_highlights_invoke (i : Invocation) (w : World) :
  keeps_highlights true w (invoke i w).
Proof.
  assert (Rf : forall w, keeps_highlights true w w)
    by apply keeps_highlights_refl.
  assert (Rt : forall f a b c, keeps_highlights true a b ->
                               keeps_highlights f b c -> keeps_highlights f a c)
    by (intros f a b c; apply keeps_highlights_trans).
  assert (Rc : forall ls w, keeps_highlights true w (console_logs ls w))
    by (intros ls v hs H; split; [reflexivity | exists []; now rewrite app_nil_r]).
  assert (Rd : forall w, keeps_highlights true w (draw w))
    by (intros v hs H; split; [reflexivity | exists []; now rewrite app_nil_r]).
  destruct i; simpl.
  - apply keeps_highlights_getHighlights.
  - apply keeps_highlights_getBooks.
  - apply (respects_getBook keeps_highlights Rf Rt
             keeps_highlights_getBooks keeps_highlights_createBook).
  - apply keeps_highlights_createBook.
  - apply keeps_highlights_createHighlight.
  - apply (respects_createHighlights keeps_highlights Rf Rt Rc
             keeps_highlights_getHighlights keeps_highlights_createHighlight).
  - apply (respects_addBookAndHighlights keeps_highlights Rf Rt Rc Rd
             keeps_highlights_getHighlights keeps_highlights_getBooks
             keeps_highlights_createHighlight keeps_highlights_createBook).
  - apply (respects_parse keeps_highlights Rf Rt Rc Rd
             keeps_highlights_getHighlights keeps_highlights_getBooks
             keeps_highlights_createHighlight keeps_highlights_createBook).
Qed.

Lemma keeps_books_invoke (i : Invocation) (w : World) :
  keeps_books true w (invoke i w).
Proof.
  assert (Rf : forall w, keeps_books true w w) by apply keeps_books_refl.
  assert (Rt : forall f a b c, keeps_books true a b ->
                               keeps_books f b c -> keeps_books f a c)
    by (intros f a b c; apply keeps_books_trans).
  assert (Rc : forall ls w, keeps_books true w (console_logs ls w))
    by (intros ls v bs H; split; [reflexivity | exists []; now rewrite app_nil_r]).
  assert (Rd : forall w, keeps_books true w (draw w))
    by (intros v bs H; split; [reflexivity | exists []; now rewrite app_nil_r]).
  destruct i; simpl.
  - apply keeps_books_getHighlights.
  - apply keeps_books_getBooks.
  - apply (respects_getBook keeps_books Rf Rt
             keeps_books_getBooks keeps_books_createBook).
  - apply keeps_books_createBook.
  - apply keeps_books_createHighlight.
  - apply (respects_createHighlights keeps_books Rf Rt Rc
             keeps_books_getHighlights keeps_books_createHighlight).
  - apply (respects_addBookAndHighlights keeps_books Rf Rt Rc Rd
             keeps_books_getHighlights keeps_books_getBooks
             keeps_books_createHighlight keeps_books_createBook).
  - apply (respects_parse keeps_books Rf Rt Rc Rd
             keeps_books_getHighlights keeps_books_getBooks
             keeps_books_createHighlight keeps_books_createBook).
Qed.

Lemma keeps_highlights_invoke_all (ops : list Invocation) (w : World) :
  keeps_highlights true w (invoke_all ops w).
Proof.
  revert w. induction ops as [|i ops IH]; intros w; simpl.
  - apply keeps_highlights_refl.
  - eapply keeps_highlights_trans; [apply (keeps_highlights_invoke i) | apply IH].
Qed.

Lemma keeps_books_invoke_all (ops : list Invocation) (w : World) :
  keeps_books true w (invoke_all ops w).
Proof.
  revert w. induction ops as [|i ops IH]; intros w; simpl.
  - apply keeps_books_refl.
  - eapply keeps_books_trans; [apply (keeps_books_invoke i) | apply IH].
Qed.

(** C8, as the source has it.  For each collection: while no listing is
    cached, an invocation of the listing operation sends one remote read,
    which is memoised when it succeeds and leaves the cache empty when it
    fails; once a listing is cached, an invocation returns it without any
    remote call, and whatever the engine does afterwards the collection is
    never read again and the cached list is only appended to. *)
Theorem listing_memoised_after_successful_read (w : World) (ops : list Invocation) :
  match c_highlights (cache w) with
  | None =>
      r_calls (siteleaf (snd (getHighlights w)))
      = r_calls (siteleaf w)
        ++ [(GET_documents Highlights limit, negb (next_fault (siteleaf w)))]
      /\ (if next_fault (siteleaf w)
          then fst (getHighlights w) = Rejected RemoteError
               /\ c_highlights (cache (snd (getHighlights w))) = None
          else fst (getHighlights w) = Fulfilled (r_highlights (siteleaf w))
               /\ c_highlights (cache (snd (getHighlights w)))
                  = Some (r_highlights (siteleaf w)))
  | Some hs =>
      getHighlights w = (Fulfilled hs, w)
      /\ reads Highlights (r_calls (siteleaf (invoke_all ops w)))
         = reads Highlights (r_calls (siteleaf w))
      /\ exists more, c_highlights (cache (invoke_all ops w)) = Some (hs ++ more)
  end
  /\ match c_books (cache w) with
     | None =>
         r_calls (siteleaf (snd (getBooks w)))
         = r_calls (siteleaf w)
           ++ [(GET_documents Books limit, negb (next_fault (siteleaf w)))]
         /\ (if next_fault (siteleaf w)
             then fst (getBooks w) = Rejected RemoteError
                  /\ c_books (cache (snd (getBooks w))) = None
             else fst (getBooks w) = Fulfilled (r_books (siteleaf w))
                  /\ c_books (cache (snd (getBooks w))) = Some (r_books (siteleaf w)))
     | Some bs =>
         getBooks w = (Fulfilled bs, w)
         /\ reads Books (r_calls (siteleaf (invoke_all ops w)))
            = reads Books (r_calls (siteleaf w))
         /\ exists more, c_books (cache (invoke_all ops w)) = Some (bs ++ more)
     end.
Proof.
  split.
  - destruct (c_highlights (cache w)) as [hs|] eqn:C.
    + split; [unfold getHighlights; now rewrite C|].
      exact (keeps_highlights_invoke_all ops w hs C).
    + rewrite getHighlights_calls, C. split; [reflexivity|].
      unfold getHighlights, list_highlights. rewrite C.
      destruct (next_fault (siteleaf w)); simpl; rewrite ?C; split; reflexivity.
  - destruct (c_books (cache w)) as [bs|] eqn:C.
    + split; [unfold getBooks; now rewrite C|].
      exact (keeps_books_invoke_all ops w bs C).
    + rewrite getBooks_calls, C. split; [reflexivity|].
      unfold getBooks, list_books. rewrite C.
      destruct (next_fault (siteleaf w)); simpl; rewrite ?C; split; reflexivity.
Qed.

(** *** Failures *)

Lemma calls_succeeded_refl (w : World) : calls_succeeded true w w.
Proof. exists []. split; [now rewrite app_nil_r | reflexivity]. Qed.

Lemma calls_succeeded_trans (f : bool) (a b c : World) :
  calls_succeeded true a b -> calls_succeeded f b c -> calls_succeeded f a c.
Proof.
  intros [n1 [E1 H1]] [n2 [E2 H2]]. exists (n1 ++ n2). split.
  - now rewrite E2, E1, app_assoc.
  - intros F. rewrite forallb_app, H1, H2; auto.
Qed.

Lemma calls_succeeded_quiet (w w' : World) :
  siteleaf w' = siteleaf w -> calls_succeeded true w w'.
Proof.
  intros E. exists []. rewrite E. split; [now rewrite app_nil_r | reflexivity].
Qed.

Ltac succeeded_prim w :=
  primitive w;
  first [ exists nil; split; [now rewrite app_nil_r | reflexivity]
        | eexists; split;
          [ reflexivity
          | simpl;
            repeat match goal with
                   | H : next_fault _ = _ |- _ => rewrite H
                   end;
            simpl; congruence ] ].

Lemma calls_succeeded_getHighlights (w : World) :
  calls_succeeded (fulfilled (fst (getHighlights w))) w (snd (getHighlights w)).
Proof. succeeded_prim w. Qed.

Lemma calls_succeeded_getBooks (w : World) :
  calls_succeeded (fulfilled (fst (getBooks w))) w (snd (getBooks w)).
Proof. succeeded_prim w. Qed.

Lemma calls_succeeded_createHighlight (h : Highlight) (b : BookDoc) (w : World) :
  calls_succeeded (fulfilled (fst (createHighlight h b w))) w
    (snd (createHighlight h b w)).
Proof. succeeded_prim w. Qed.

Lemma calls_succeeded_createBook (p : BookParams) (w : World) :
  calls_succeeded (fulfilled (fst (createBook p w))) w (snd (createBook p w)).
Proof. succeeded_prim w. Qed.

Lemma calls_succeeded_addBookAndHighlights (book : Book) (hs : list Highlight)
  (w : World) :
  calls_succeeded (fulfilled (fst (addBookAndHighlights book hs w))) w
    (snd (addBookAndHighlights book hs w)).
Proof.
  apply (respects_addBookAndHighlights calls_succeeded
           calls_succeeded_refl calls_succeeded_trans).
  - intros ls v. now apply calls_succeeded_quiet.
  - intros v. now apply calls_succeeded_quiet.
  - apply calls_succeeded_getHighlights.
  - apply calls_succeeded_getBooks.
  - apply calls_succeeded_createHighlight.
  - apply calls_succeeded_createBook.
Qed.

(** C6. If some remote call made while the first tuple is processed fails,
    the run stops there: the driver's promise never settles, nothing
    chained on it runs, and the calls the store receives during the whole
    run are those of the first tuple, so no call of any kind is issued
    for a later tuple. *)
Theorem failure_halts_later_tuples (t : Tuple) (rest : list Tuple) (w : World)
  (new : list (Request * bool)) (q : Request) :
  let w1 := snd (addBookAndHighlights (res_book t) (res_highlights t) w) in
  r_calls (siteleaf w1) = r_calls (siteleaf w) ++ new ->
  In (q, false) new ->
  synchronize (t :: rest) w = (Pending, w1)
  /\ r_calls (siteleaf (snd (synchronize (t :: rest) w))) = r_calls (siteleaf w) ++ new
  /\ forall B (k : unit -> Async B),
      andThen (synchronize (t :: rest)) k w = (Pending, w1).
Proof.
  intros w1 Hcalls Hfail.
  assert (S : synchronize (t :: rest) w = (Pending, w1)).
  { pose proof (calls_succeeded_addBookAndHighlights
                  (res_book t) (res_highlights t) w) as [new' [E Hok]].
    fold w1 in E. rewrite Hcalls in E. apply app_inv_head in E. subst new'.
    unfold synchronize. simpl. unfold sync_one at 1. subst w1.
    destruct (addBookAndHighlights (res_book t) (res_highlights t) w)
      as [[[]| e |] w1]; simpl in *; try reflexivity.
    specialize (Hok eq_refl). rewrite forallb_forall in Hok.
    specialize (Hok _ Hfail). discriminate. }
  split; [exact S|]. split.
  - rewrite S. exact Hcalls.
  - intros B k. unfold andThen. now rewrite S.
Qed.

Lemma getHighlights_fulfilled (w w0 : World) (existing : list HighlightDoc) :
  getHighlights w = (Fulfilled existing, w0) ->
  c_highlights (cache w0) = Some existing.
Proof.
  unfold getHighlights, list_highlights.
  destruct (c_highlights (cache w)) as [hs|] eqn:C.
  - intros [= <- <-]. exact C.
  - destruct (next_fault (siteleaf w)); intros [= <- <-]. reflexivity.
Qed.

Lemma write_one_accepted (book : BookDoc) (n i : nat) (h : Highlight) (w : World)
  (hs : list HighlightDoc) :
  c_highlights (cache w) = Some hs ->
  next_fault (siteleaf w) = false ->
  exists w1 doc,
    write_one book n i h w = (Fulfilled tt, w1)
    /\ body (highlight_fields doc) = content h
    /\ book_uuid (hp_metadata (highlight_fields doc)) = uuid (bp_metadata (book_fields book))
    /\ c_highlights (cache w1) = Some (hs ++ [doc])
    /\ c_books (cache w1) = c_books (cache w)
    /\ r_faults (siteleaf w1) = tl (r_faults (siteleaf w))
    /\ r_books (siteleaf w1) = r_books (siteleaf w)
    /\ r_highlights (siteleaf w1) = r_highlights (siteleaf w) ++ [doc]
    /\ r_calls (siteleaf w1)
       = r_calls (siteleaf w) ++ [(POST_highlight (highlight_fields doc), true)].
Proof.
  intros Hc Hf.
  unfold write_one, andThen, createHighlight, create_highlight. simpl.
  rewrite Hf, Hc. simpl.
  eexists _, _. split; [reflexivity|]. simpl. rewrite ?Hf. repeat split; reflexivity.
Qed.

Lemma write_one_refused (book : BookDoc) (n i : nat) (h : Highlight) (w : World)
  (fs : list bool) :
  r_faults (siteleaf w) = true :: fs ->
  exists w1 params,
    write_one book n i h w = (Rejected RemoteError, w1)
    /\ body params = content h
    /\ r_faults (siteleaf w1) = fs
    /\ r_highlights (siteleaf w1) = r_highlights (siteleaf w)
    /\ r_calls (siteleaf w1) = r_calls (siteleaf w) ++ [(POST_highlight params, false)].
Proof.
  intros Hf.
  unfold write_one, andThen, createHighlight, create_highlight. simpl.
  unfold next_fault. rewrite Hf. simpl.
  exists (set_siteleaf
            (received (POST_highlight
                         (createHighlight_params h book (uuid_v4 (entropy w))))
                      (siteleaf w))
            (console_logs (createHighlight_log h) (draw w))),
    (createHighlight_params h book (uuid_v4 (entropy w))).
  simpl. unfold next_fault. rewrite Hf. repeat split; reflexivity.
Qed.



(** *** Idempotence *)

Lemma coherent_boot (r : Remote) : coherent (boot r).
Proof. split; exact I. Qed.

Lemma coherent_books (w : World) (bs : list BookDoc) :
  coherent w -> c_books (cache w) = Some bs -> bs = r_books (siteleaf w).
Proof. intros [H _] E. now rewrite E in H. Qed.

Lemma coherent_highlights (w : World) (hs : list HighlightDoc) :
  coherent w -> c_highlights (cache w) = Some hs -> hs = r_highlights (siteleaf w).
Proof. intros [_ H] E. now rewrite E in H. Qed.

Ltac coherent_prim w :=
  unfold stays_coherent, coherent; intros [Hb Hh]; primitive w; split; simpl;
  repeat match goal with
         | H : c_books (cache w) = _ |- context [c_books (cache w)] => rewrite H
         | H : c_highlights (cache w) = _ |- context [c_highlights (cache w)] =>
             rewrite H
         end;
  simpl; try exact I; congruence.

Lemma stays_coherent_getHighlights (w : World) :
  stays_coherent (fulfilled (fst (getHighlights w))) w (snd (getHighlights w)).
Proof. coherent_prim w. Qed.

Lemma stays_coherent_getBooks (w : World) :
  stays_coherent (fulfilled (fst (getBooks w))) w (snd (getBooks w)).
Proof. coherent_prim w. Qed.

Lemma stays_coherent_createHighlight (h : Highlight) (b : BookDoc) (w : World) :
  stays_coherent (fulfilled (fst (createHighlight h b w))) w
    (snd (createHighlight h b w)).
Proof. coherent_prim w. Qed.

Lemma stays_coherent_createBook (p : BookParams) (w : World) :
  stays_coherent (fulfilled (fst (createBook p w))) w (snd (createBook p w)).
Proof. coherent_prim w. Qed.

Lemma coherent_addBookAndHighlights (book : Book) (hs : list Highlight) (w : World) :
  coherent w -> coherent (snd (addBookAndHighlights book hs w)).
Proof.
  apply (respects_addBookAndHighlights stays_coherent).
  - intros v H. exact H.
  - intros f a b c Hab Hbc H. apply Hbc, Hab, H.
  - intros ls v H. exact H.
  - intros v H. exact H.
  - apply stays_coherent_getHighlights.
  - apply stays_coherent_getBooks.
  - apply stays_coherent_createHighlight.
  - apply stays_coherent_createBook.
Qed.

Lemma store_grows_quiet (f : bool) (w w' : World) :
  r_books (siteleaf w') = r_books (siteleaf w) ->
  r_highlights (siteleaf w') = r_highlights (siteleaf w) ->
  store_grows f w w'.
Proof. intros B H. exists [], []. now rewrite B, H, !app_nil_r. Qed.

Lemma store_grows_trans (f g h : bool) (a b c : World) :
  store_grows f a b -> store_grows g b c -> store_grows h a c.
Proof.
  intros [b1 [h1 [B1 H1]]] [b2 [h2 [B2 H2]]]. exists (b1 ++ b2), (h1 ++ h2).
  now rewrite B2, H2, B1, H1, !app_assoc.
Qed.

Ltac grows_prim w :=
  primitive w;
  first [ apply store_grows_quiet; reflexivity
        | eexists nil, _; split; [now rewrite app_nil_r | reflexivity]
        | eexists _, nil; split; [reflexivity | now rewrite app_nil_r] ].

Lemma store_grows_getHighlights (w : World) :
  store_grows (fulfilled (fst (getHighlights w))) w (snd (getHighlights w)).
Proof. grows_prim w. Qed.

Lemma store_grows_getBooks (w : World) :
  store_grows (fulfilled (fst (getBooks w))) w (snd (getBooks w)).
Proof. grows_prim w. Qed.

Lemma store_grows_createHighlight (h : Highlight) (b : BookDoc) (w : World) :
  store_grows (fulfilled (fst (createHighlight h b w))) w
    (snd (createHighlight h b w)).
Proof. grows_prim w. Qed.

Lemma store_grows_createBook (p : BookParams) (w : World) :
  store_grows (fulfilled (fst (createBook p w))) w (snd (createBook p w)).
Proof. grows_prim w. Qed.

Lemma store_grows_addBookAndHighlights (book : Book) (hs : list Highlight) (w : World) :
  store_grows true w (snd (addBookAndHighlights book hs w)).
Proof.
  assert (H : store_grows (fulfilled (fst (addBookAndHighlights book hs w))) w
                (snd (addBookAndHighlights book hs w))).
  { apply (respects_addBookAndHighlights store_grows).
    - intros v. now apply store_grows_quiet.
    - intros f a b c. apply store_grows_trans.
    - intros ls v. now apply store_grows_quiet.
    - intros v. now apply store_grows_quiet.
    - apply store_grows_getHighlights.
    - apply store_grows_getBooks.
    - apply store_grows_createHighlight.
    - apply store_grows_createBook. }
  exact H.
Qed.

Lemma find_app_found {A} (f : A -> bool) (l l' : list A) (x : A) :
  find f l = Some x -> find f (l ++ l') = Some x.
Proof.
  induction l as [|y l IH]; simpl; [discriminate|].
  destruct (f y); [trivial | exact IH].
Qed.

Lemma is_duplicate_app (b : BookDoc) (l l' : list HighlightDoc) (h : Highlight) :
  is_duplicate b (l ++ l') h = is_duplicate b l h || is_duplicate b l' h.
Proof. unfold is_duplicate. apply existsb_app. Qed.

Lemma settled_grows (t : Tuple) (r r' : Remote) (bs : list BookDoc)
  (hs : list HighlightDoc) :
  r_books r' = r_books r ++ bs ->
  r_highlights r' = r_highlights r ++ hs ->
  settled t r -> settled t r'.
Proof.
  intros B H [E | [b [F D]]]; [now left | right].
  exists b. rewrite B, H. split; [now apply find_app_found|].
  intros h Hh. rewrite is_duplicate_app, (D h Hh). reflexivity.
Qed.

(** **** The first run *)

Lemma getBooks_fulfilled (w w1 : World) (books : list BookDoc) :
  coherent w ->
  getBooks w = (Fulfilled books, w1) ->
  coherent w1
  /\ c_books (cache w1) = Some books
  /\ books = r_books (siteleaf w1)
  /\ r_highlights (siteleaf w1) = r_highlights (siteleaf w).
Proof.
  intros Hc G. pose proof (stays_coherent_getBooks w Hc) as Hc1.
  rewrite G in Hc1. simpl in Hc1. split; [exact Hc1|].
  assert (C : c_books (cache w1) = Some books).
  { revert G. unfold getBooks, list_books.
    destruct (c_books (cache w)) as [bs|] eqn:C.
    - intros [= <- <-]. exact C.
    - destruct (next_fault (siteleaf w)); intros [= <- <-]. reflexivity. }
  split; [exact C|]. split; [now apply coherent_books|].
  pose proof (getBooks_reads_only w) as R. rewrite G in R. apply R.
Qed.

Lemma getBook_fulfilled (p : BookParams) (w wb : World) (b : BookDoc) :
  coherent w ->
  getBook p w = (Fulfilled b, wb) ->
  coherent wb
  /\ findWhere_original_title (bp_title p) (r_books (siteleaf wb)) = Some b.
Proof.
  intros Hc G.
  pose proof (respects_getBook stays_coherent
                (fun v H => H) (fun f a b c Hab Hbc H => Hbc (Hab H))
                stays_coherent_getBooks stays_coherent_createBook p w Hc) as Hcb.
  rewrite G in Hcb. simpl in Hcb. split; [exact Hcb|].
  revert G. unfold getBook, andThen.
  destruct (getBooks w) as [[books| e |] w1] eqn:GB; try discriminate.
  destruct (getBooks_fulfilled w w1 books Hc GB) as [Hc1 [C1 [E1 _]]].
  destruct (findWhere_original_title (bp_title p) books) as [existing|] eqn:F.
  - intros [= <- <-]. now rewrite <- E1.
  - unfold createBook, create_book. simpl.
    destruct (next_fault (siteleaf w1)) eqn:Fa; simpl; [discriminate|].
    rewrite C1. intros [= <- <-]. simpl. rewrite <- E1.
    unfold findWhere_original_title in *. apply find_first.
    + intros y Hy. destruct (has_original_title (bp_title p) y) eqn:T; [|reflexivity].
      pose proof (find_none _ _ F y Hy) as N. congruence.
    + unfold has_original_title. simpl. apply String.eqb_refl.
Qed.

Lemma write_one_fulfilled (book : BookDoc) (n i : nat) (h : Highlight) (w w1 : World)
  (hs : list HighlightDoc) :
  c_highlights (cache w) = Some hs ->
  write_one book n i h w = (Fulfilled tt, w1) ->
  exists doc,
    body (highlight_fields doc) = content h
    /\ book_uuid (hp_metadata (highlight_fields doc)) = uuid (bp_metadata (book_fields book))
    /\ c_highlights (cache w1) = Some (hs ++ [doc])
    /\ r_books (siteleaf w1) = r_books (siteleaf w)
    /\ r_highlights (siteleaf w1) = r_highlights (siteleaf w) ++ [doc].
Proof.
  intros Hc E. destruct (next_fault (siteleaf w)) eqn:F.
  - exfalso. revert E.
    unfold write_one, andThen, createHighlight, create_highlight. simpl.
    rewrite F. discriminate.
  - destruct (write_one_accepted book n i h w hs Hc F)
      as [w1' [doc [E' [Hb [Hu [C1 [_ [_ [B1 [H1 _]]]]]]]]]].
    rewrite E in E'. injection E' as <-. exists doc. auto.
Qed.

Lemma writer_all_fulfilled (book : BookDoc) (n : nat) (l : list Highlight) :
  forall (i : nat) (w w' : World) (hs : list HighlightDoc),
    c_highlights (cache w) = Some hs ->
    eachSeries (write_one book n) i l w = (Fulfilled tt, w') ->
    exists docs,
      r_books (siteleaf w') = r_books (siteleaf w)
      /\ r_highlights (siteleaf w') = r_highlights (siteleaf w) ++ docs
      /\ forall h, In h l -> is_duplicate book docs h = true.
Proof.
  induction l as [|x l IH]; intros i w w' hs Hc E; simpl in E.
  - injection E as <-. exists []. rewrite app_nil_r. repeat split. intros h [].
  - destruct (write_one book n i x w) as [[[]| e |] w1] eqn:W; try discriminate.
    destruct (write_one_fulfilled book n i x w w1 hs Hc W)
      as [doc [Hb [Hu [C1 [B1 H1]]]]].
    destruct (IH (S i) w1 w' _ C1 E) as [docs [B' [H' D']]].
    exists (doc :: docs). split; [congruence|]. split.
    + rewrite H', H1, <- app_assoc. reflexivity.
    + intros h [<- | Hin].
      * simpl. rewrite Hu, Hb, !String.eqb_refl. reflexivity.
      * simpl. rewrite (D' h Hin). apply orb_true_r.
Qed.

Lemma createHighlights_fulfilled (hs : list Highlight) (book : BookDoc) (w w' : World) :
  coherent w ->
  createHighlights hs book w = (Fulfilled tt, w') ->
  r_books (siteleaf w') = r_books (siteleaf w)
  /\ forall h, In h hs -> is_duplicate book (r_highlights (siteleaf w')) h = true.
Proof.
  intros Hc. unfold createHighlights, andThen.
  destruct (getHighlights w) as [[existing| e |] w0] eqn:G; try discriminate.
  pose proof (getHighlights_fulfilled w w0 existing G) as C0.
  pose proof (stays_coherent_getHighlights w Hc) as Hc0.
  rewrite G in Hc0. simpl in Hc0.
  pose proof (coherent_highlights w0 existing Hc0 C0) as E0.
  assert (B0 : r_books (siteleaf w0) = r_books (siteleaf w)).
  { revert G. unfold getHighlights, list_highlights.
    destruct (c_highlights (cache w)); [now intros [= _ <-]|].
    destruct (next_fault (siteleaf w)); now intros [= _ <-]. }
  rewrite filterOutExistingHighlights_spec. unfold filterNew_spec.
  destruct (filter (fun h => negb (is_duplicate book existing h)) hs)
    as [|x l] eqn:Fl.
  - intros [= <-]. simpl. split; [exact B0|].
    intros h Hin. rewrite <- E0.
    destruct (is_duplicate book existing h) eqn:D; [reflexivity|].
    assert (X : In h (filter (fun h => negb (is_duplicate book existing h)) hs))
      by (apply filter_In; now rewrite D).
    rewrite Fl in X. destruct X.
  - intros E.
    apply (writer_all_fulfilled book _ (x :: l) 1 _ w' existing) in E;
      [|exact C0].
    destruct E as [docs [B' [H' D']]]. simpl in B', H'.
    split; [congruence|].
    intros h Hin. rewrite H', <- E0, is_duplicate_app.
    destruct (is_duplicate book existing h) eqn:D; [reflexivity|].
    simpl. apply D'. rewrite <- Fl. apply filter_In. now rewrite D.
Qed.

Lemma addBookAndHighlights_settles (t : Tuple) (w w' : World) :
  coherent w ->
  addBookAndHighlights (res_book t) (res_highlights t) w = (Fulfilled tt, w') ->
  settled t (siteleaf w').
Proof.
  intros Hc H. unfold settled. revert H. unfold addBookAndHighlights.
  destruct (res_highlights t) as [|h hs] eqn:Hs; [now left|].
  intros H. right. revert H. unfold andThen.
  set (w0 := draw (console_log (Time (timerName (res_book t))) w)).
  set (p := {| bp_title := title (res_book t); bp_metadata := _ |}).
  destruct (getBook p w0) as [[b| e |] wb] eqn:G; try discriminate.
  destruct (getBook_fulfilled p w0 wb b Hc G) as [Hcb F].
  destruct (createHighlights (h :: hs) b wb) as [[[]| e |] wc] eqn:C; try discriminate.
  intros [= <-]. simpl.
  destruct (createHighlights_fulfilled (h :: hs) b wb wc Hcb C) as [B D].
  exists b. split; [|exact D]. rewrite B. exact F.
Qed.

(** **** The second run *)

Lemma creates_app (xs ys : list (Request * bool)) :
  creates (xs ++ ys) = creates xs + creates ys.
Proof. unfold creates. now rewrite filter_app, length_app. Qed.

Lemma only_reads_quiet (w w' : World) : siteleaf w' = siteleaf w -> only_reads w w'.
Proof. intros E. unfold only_reads. now rewrite E. Qed.

Lemma only_reads_trans (a b c : World) :
  only_reads a b -> only_reads b c -> only_reads a c.
Proof. unfold only_reads. intros [? [? ?]] [? [? ?]]. repeat split; congruence. Qed.

Lemma only_reads_getBooks (w : World) : only_reads w (snd (getBooks w)).
Proof.
  unfold only_reads. rewrite getBooks_calls, creates_app.
  destruct (getBooks_reads_only w) as [B [H _]]. repeat split; try assumption.
  destruct (c_books (cache w)); unfold creates; simpl; lia.
Qed.

Lemma only_reads_getHighlights (w : World) : only_reads w (snd (getHighlights w)).
Proof.
  unfold only_reads. rewrite getHighlights_calls, creates_app.
  repeat split.
  - primitive w; reflexivity.
  - primitive w; reflexivity.
  - destruct (c_highlights (cache w)); unfold creates; simpl; lia.
Qed.

Lemma settled_same_store (t : Tuple) (r r' : Remote) :
  r_books r' = r_books r ->
  r_highlights r' = r_highlights r ->
  settled t r -> settled t r'.
Proof.
  intros B H. apply (settled_grows t r r' [] []); now rewrite app_nil_r.
Qed.

Lemma createHighlights_settled (hs : list Highlight) (b : BookDoc) (w : World) :
  coherent w ->
  (forall h, In h hs -> is_duplicate b (r_highlights (siteleaf w)) h = true) ->
  only_reads w (snd (createHighlights hs b w)).
Proof.
  intros Hc D. unfold createHighlights, andThen.
  pose proof (only_reads_getHighlights w) as R.
  pose proof (stays_coherent_getHighlights w Hc) as Hc0.
  destruct (getHighlights w) as [[existing| e |] w0] eqn:G; simpl in *;
    try exact R.
  pose proof (getHighlights_fulfilled w w0 existing G) as C0.
  pose proof (coherent_highlights w0 existing Hc0 C0) as E0.
  rewrite filterOutExistingHighlights_spec. unfold filterNew_spec.
  assert (N : filter (fun h => negb (is_duplicate b existing h)) hs = []).
  { destruct R as [_ [Rh _]].
    induction hs as [|h hs IH]; simpl; [reflexivity|].
    rewrite E0, Rh, (D h (or_introl eq_refl)). simpl.
    rewrite <- Rh, <- E0. apply IH. intros h' Hin. apply D. now right. }
  rewrite N. simpl.
  eapply only_reads_trans; [exact R | now apply only_reads_quiet].
Qed.

Lemma addBookAndHighlights_settled (t : Tuple) (w : World) :
  coherent w ->
  settled t (siteleaf w) ->
  only_reads w (snd (addBookAndHighlights (res_book t) (res_highlights t) w)).
Proof.
  intros Hc [E | [b [F D]]].
  - rewrite E. simpl. now apply only_reads_quiet.
  - unfold addBookAndHighlights.
    destruct (res_highlights t) as [|h hs] eqn:Hs; [now apply only_reads_quiet|].
    set (w0 := draw (console_log (Time (timerName (res_book t))) w)).
    set (p := {| bp_title := title (res_book t); bp_metadata := _ |}).
    assert (Hc0 : coherent w0) by exact Hc.
    assert (R0 : only_reads w w0) by now apply only_reads_quiet.
    apply (only_reads_trans w w0); [exact R0|].
    unfold andThen at 1. unfold getBook, andThen at 1.
    pose proof (only_reads_getBooks w0) as R1.
    destruct (getBooks w0) as [[books| e |] w1] eqn:G; simpl in *; try exact R1.
    destruct (getBooks_fulfilled w0 w1 books Hc0 G) as [Hc1 [_ [E1 _]]].
    destruct R1 as [B1 [H1 K1]].
    assert (F1 : findWhere_original_title (bp_title p) books = Some b).
    { rewrite E1, B1. exact F. }
    simpl in F1. rewrite F1. unfold resolve.
    assert (R2 : only_reads w1 (snd (createHighlights (h :: hs) b w1))).
    { apply createHighlights_settled; [exact Hc1|]. now rewrite H1. }
    apply (only_reads_trans w0 w1); [repeat split; assumption|].
    unfold andThen.
    destruct (createHighlights (h :: hs) b w1) as [[[]| e |] w2]; simpl in *;
      exact R2.
Qed.

Lemma series_settles (ts : list Tuple) :
  forall (i : nat) (w w' : World),
    coherent w ->
    eachSeries sync_one i ts w = (Fulfilled tt, w') ->
    coherent w'
    /\ store_grows true w w'
    /\ forall t, In t ts -> settled t (siteleaf w').
Proof.
  induction ts as [|t ts IH]; intros i w w' Hc E; simpl in E.
  - injection E as <-. split; [exact Hc|]. split; [|intros t []].
    now apply store_grows_quiet.
  - unfold sync_one at 1 in E.
    pose proof (coherent_addBookAndHighlights (res_book t) (res_highlights t) w Hc) as Hc1.
    pose proof (store_grows_addBookAndHighlights (res_book t) (res_highlights t) w) as G1.
    destruct (addBookAndHighlights (res_book t) (res_highlights t) w)
      as [[[]| e |] w1] eqn:A; try discriminate.
    simpl in Hc1, G1.
    pose proof (addBookAndHighlights_settles t w w1 Hc A) as S1.
    destruct (IH (S i) w1 w' Hc1 E) as [Hc' [G' S']].
    split; [exact Hc'|]. split.
    + eapply store_grows_trans; eassumption.
    + intros t' [<- | Hin]; [|now apply S'].
      destruct G' as [bs [hs [B H]]]. eapply settled_grows; eassumption.
Qed.

Lemma series_settled (ts : list Tuple) :
  forall (i : nat) (w : World),
    coherent w ->
    (forall t, In t ts -> settled t (siteleaf w)) ->
    only_reads w (snd (eachSeries sync_one i ts w)).
Proof.
  induction ts as [|t ts IH]; intros i w Hc S; simpl.
  - now apply only_reads_quiet.
  - unfold sync_one at 1.
    pose proof (coherent_addBookAndHighlights (res_book t) (res_highlights t) w Hc) as Hc1.
    pose proof (addBookAndHighlights_settled t w Hc (S t (or_introl eq_refl))) as R1.
    destruct (addBookAndHighlights (res_book t) (res_highlights t) w)
      as [[[]| e |] w1] eqn:A; simpl in *; try exact R1.
    eapply only_reads_trans; [exact R1|]. apply IH; [exact Hc1|].
    intros t' Hin. destruct R1 as [B [H _]].
    apply (settled_same_store t' (siteleaf w)); auto.
Qed.

Lemma eachSeries_app {A B} (iteratee : nat -> A -> Async B) (l1 l2 : list A) :
  forall (i : nat) (w w' : World),
    eachSeries iteratee i l1 w = (Fulfilled tt, w') ->
    eachSeries iteratee i (l1 ++ l2) w = eachSeries iteratee (length l1 + i) l2 w'.
Proof.
  induction l1 as [|x l1 IH]; intros i w w' E; simpl in *.
  - now injection E as <-.
  - destruct (iteratee i x w) as [[b| e |] w1]; try discriminate.
    rewrite (IH _ _ _ E). now rewrite Nat.add_succ_r.
Qed.

Lemma series_grows (ts : list Tuple) (i : nat) (w : World) :
  store_grows true w (snd (eachSeries sync_one i ts w)).
Proof.
  assert (H : respects store_grows (eachSeries sync_one i ts)).
  { apply respects_eachSeries.
    - intros v. now apply store_grows_quiet.
    - intros f a b c. apply store_grows_trans.
    - intros j t v. apply store_grows_addBookAndHighlights. }
  exact (H w).
Qed.

(** The tuples a run got through stay settled to the end of that run,
    whatever happens to the tuples after them. *)
Lemma done_stays_settled (done rest : list Tuple) (i : nat) (w w_done : World) :
  coherent w ->
  eachSeries sync_one i done w = (Fulfilled tt, w_done) ->
  forall t, In t done ->
            settled t (siteleaf (snd (eachSeries sync_one i (done ++ rest) w))).
Proof.
  intros Hc E t Hin.
  destruct (series_settles done i w w_done Hc E) as [_ [_ S]].
  rewrite (eachSeries_app _ _ _ _ _ _ E).
  destruct (series_grows rest (length done + i) w_done) as [bs [hs [Gb Gh]]].
  eapply settled_grows; [exact Gb | exact Gh |]. now apply S.
Qed.

(** *** Deduplication is scoped to the book *)

Lemma where_book_uuid_idem (u : string) (existing : list HighlightDoc) :
  where_book_uuid u (where_book_uuid u existing) = where_book_uuid u existing.
Proof.
  unfold where_book_uuid. induction existing as [|e es IH]; simpl; [reflexivity|].
  destruct (book_uuid (hp_metadata (highlight_fields e)) =? u) eqn:E; simpl.
  - now rewrite E, IH.
  - exact IH.
Qed.

Lemma filterOutExistingHighlights_scoped (book : BookDoc)
  (candidates : list Highlight) (existing : list HighlightDoc) :
  filterOutExistingHighlights book candidates existing
  = filterOutExistingHighlights book candidates
      (where_book_uuid (uuid (bp_metadata (book_fields book))) existing).
Proof.
  rewrite !filterOutExistingHighlights_reject. now rewrite where_book_uuid_idem.
Qed.

Lemma createHighlights_single (h : Highlight) (book : BookDoc) (w w0 : World)
  (existing : list HighlightDoc) :
  getHighlights w = (Fulfilled existing, w0) ->
  is_duplicate book existing h = false ->
  next_fault (siteleaf w0) = false ->
  exists w1 doc,
    createHighlights [h] book w = (Fulfilled tt, w1)
    /\ body (highlight_fields doc) = content h
    /\ book_uuid (hp_metadata (highlight_fields doc)) = uuid (bp_metadata (book_fields book))
    /\ c_highlights (cache w1) = Some (existing ++ [doc])
    /\ r_faults (siteleaf w1) = tl (r_faults (siteleaf w0))
    /\ r_highlights (siteleaf w1) = r_highlights (siteleaf w0) ++ [doc].
Proof.
  intros G Hd Hf. pose proof (getHighlights_fulfilled w w0 existing G) as Hc.
  unfold createHighlights, andThen.
  rewrite G, filterOutExistingHighlights_spec. unfold filterNew_spec. simpl.
  rewrite Hd. simpl.
  set (w0' := console_log _ (console_logs _ w0)).
  destruct (write_one_accepted book 1 1 h w0' existing Hc Hf)
    as [w1 [doc [E [Hb [Hu [C1 [_ [F1 [_ [H1 _]]]]]]]]]].
  exists w1, doc. rewrite E. repeat split; assumption.
Qed.

(** C3. Deduplication looks only at the cached highlights whose
    [metadata.book_uuid] is the resolved book's [metadata.uuid]: the result
    is the same on the whole listing and on that subset.  Hence when two
    books with different uuids each submit a highlight with the same
    trimmed text, new to both, both highlights are created. *)
Theorem dedup_scoped_to_book (bookA bookB : BookDoc) (hA hB : Highlight)
  (w w0 : World) (existing : list HighlightDoc) :
  uuid (bp_metadata (book_fields bookA)) <> uuid (bp_metadata (book_fields bookB)) ->
  trim (content hA) = trim (content hB) ->
  getHighlights w = (Fulfilled existing, w0) ->
  is_duplicate bookA existing hA = false ->
  is_duplicate bookB existing hB = false ->
  nth 0 (r_faults (siteleaf w0)) false = false ->
  nth 1 (r_faults (siteleaf w0)) false = false ->
  (forall book candidates listing,
      filterOutExistingHighlights book candidates listing
      = filterOutExistingHighlights book candidates
          (where_book_uuid (uuid (bp_metadata (book_fields book))) listing))
  /\ exists w1 w2 docA docB,
      createHighlights [hA] bookA w = (Fulfilled tt, w1)
      /\ createHighlights [hB] bookB w1 = (Fulfilled tt, w2)
      /\ r_highlights (siteleaf w2) = r_highlights (siteleaf w) ++ [docA; docB]
      /\ body (highlight_fields docA) = content hA
      /\ book_uuid (hp_metadata (highlight_fields docA))
         = uuid (bp_metadata (book_fields bookA))
      /\ body (highlight_fields docB) = content hB
      /\ book_uuid (hp_metadata (highlight_fields docB))
         = uuid (bp_metadata (book_fields bookB)).
Proof.
  intros Hu Ht G DA DB F0 F1.
  split; [intros; apply filterOutExistingHighlights_scoped|].
  assert (N0 : next_fault (siteleaf w0) = false).
  { unfold next_fault. destruct (r_faults (siteleaf w0)); [reflexivity | exact F0]. }
  destruct (createHighlights_single hA bookA w w0 existing G DA N0)
    as [w1 [docA [E1 [BA [UA [C1 [Fs1 H1]]]]]]].
  assert (N1 : next_fault (siteleaf w1) = false).
  { unfold next_fault. rewrite Fs1.
    destruct (r_faults (siteleaf w0)) as [|f [|g fs]]; try reflexivity. exact F1. }
  assert (DB1 : is_duplicate bookB (existing ++ [docA]) hB = false).
  { rewrite is_duplicate_app, DB. simpl. rewrite UA.
    apply String.eqb_neq in Hu. now rewrite Hu. }
  assert (G1 : getHighlights w1 = (Fulfilled (existing ++ [docA]), w1)).
  { unfold getHighlights. now rewrite C1. }
  destruct (createHighlights_single hB bookB w1 w1 _ G1 DB1 N1)
    as [w2 [docB [E2 [BB [UB [_ [_ H2]]]]]]].
  exists w1, w2, docA, docB. repeat split; try assumption.
  destruct (only_reads_getHighlights w) as [_ [R _]]. rewrite G in R. simpl in R.
  rewrite H2, H1, R, <- app_assoc. reflexivity.
Qed.

(** ** Further properties of the engine *)

(** *** Invariants of a process *)

Lemma coherent_invoke (i : Invocation) (w : World) :
  coherent w -> coherent (invoke i w).
Proof.
  assert (Rf : forall v, stays_coherent true v v) by (intros v H; exact H).
  assert (Rt : forall f a b c, stays_coherent true a b ->
                               stays_coherent f b c -> stays_coherent f a c)
    by (intros f a b c Hab Hbc H; exact (Hbc (Hab H))).
  assert (Rc : forall ls v, stays_coherent true v (console_logs ls v))
    by (intros ls v H; exact H).
  assert (Rd : forall v, stays_coherent true v (draw v)) by (intros v H; exact H).
  destruct i; simpl.
  - apply stays_coherent_getHighlights.
  - apply stays_coherent_getBooks.
  - apply (respects_getBook stays_coherent Rf Rt
             stays_coherent_getBooks stays_coherent_createBook).
  - apply stays_coherent_createBook.
  - apply stays_coherent_createHighlight.
  - apply (respects_createHighlights stays_coherent Rf Rt Rc
             stays_coherent_getHighlights stays_coherent_createHighlight).
  - apply (respects_addBookAndHighlights stays_coherent Rf Rt Rc Rd
             stays_coherent_getHighlights stays_coherent_getBooks
             stays_coherent_createHighlight stays_coherent_createBook).
  - apply (respects_parse stays_coherent Rf Rt Rc Rd
             stays_coherent_getHighlights stays_coherent_getBooks
             stays_coherent_createHighlight stays_coherent_createBook).
Qed.

Lemma coherent_invoke_all (ops : list Invocation) (w : World) :
  coherent w -> coherent (invoke_all ops w).
Proof.
  revert w. induction ops as [|i ops IH]; intros w H; simpl; [exact H|].
  apply IH, coherent_invoke, H.
Qed.

(** X1. Whatever operations a process runs after it starts, and whichever
    of their remote calls fail, a cached listing is always the collection as
    the store holds it: each create that succeeds is pushed on the cache. *)
Theorem cache_mirrors_store (ops : list Invocation) (r : Remote) :
  let w := invoke_all ops (boot r) in
  (forall bs, c_books (cache w) = Some bs -> bs = r_books (siteleaf w))
  /\ (forall hs, c_highlights (cache w) = Some hs -> hs = r_highlights (siteleaf w)).
Proof.
  cbv zeta. pose proof (coherent_invoke_all ops (boot r) (coherent_boot r)) as H.
  split.
  - intros bs. now apply coherent_books.
  - intros hs. now apply coherent_highlights.
Qed.

Lemma store_grows_invoke (i : Invocation) (w : World) :
  store_grows true w (invoke i w).
Proof.
  assert (Rf : forall v, store_grows true v v)
    by (intros v; now apply store_grows_quiet).
  assert (Rt : forall f a b c, store_grows true a b ->
                               store_grows f b c -> store_grows f a c)
    by (intros f a b c; apply store_grows_trans).
  assert (Rc : forall ls v, store_grows true v (console_logs ls v))
    by (intros ls v; now apply store_grows_quiet).
  assert (Rd : forall v, store_grows true v (draw v))
    by (intros v; now apply store_grows_quiet).
  destruct i; simpl.
  - apply store_grows_getHighlights.
  - apply store_grows_getBooks.
  - apply (respects_getBook store_grows Rf Rt
             store_grows_getBooks store_grows_createBook).
  - apply store_grows_createBook.
  - apply store_grows_createHighlight.
  - apply (respects_createHighlights store_grows Rf Rt Rc
             store_grows_getHighlights store_grows_createHighlight).
  - apply (respects_addBookAndHighlights store_grows Rf Rt Rc Rd
             store_grows_getHighlights store_grows_getBooks
             store_grows_createHighlight store_grows_createBook).
  - apply (respects_parse store_grows Rf Rt Rc Rd
             store_grows_getHighlights store_grows_getBooks
             store_grows_createHighlight store_grows_createBook).
Qed.

(** X2. No operation of the engine removes or alters a stored document:
    after any run of operations each collection is what it was, followed by
    the documents created since. *)
Theorem store_only_gains_documents (ops : list Invocation) (w : World) :
  exists bs hs,
    r_books (siteleaf (invoke_all ops w)) = r_books (siteleaf w) ++ bs
    /\ r_highlights (siteleaf (invoke_all ops w)) = r_highlights (siteleaf w) ++ hs.
Proof.
  revert w. induction ops as [|i ops IH]; intros w; simpl.
  - exists [], []. now rewrite !app_nil_r.
  - destruct (store_grows_invoke i w) as [b1 [h1 [B1 H1]]].
    destruct (IH (invoke i w)) as [b2 [h2 [B2 H2]]].
    exists (b1 ++ b2), (h1 ++ h2). now rewrite B2, H2, B1, H1, !app_assoc.
Qed.

(** *** The writer and the resolver keep to their own collection *)

Lemma books_untouched_refl (f : bool) (w : World) : books_untouched f w w.
Proof. repeat split. Qed.

Lemma books_untouched_trans (f g h : bool) (a b c : World) :
  books_untouched f a b -> books_untouched g b c -> books_untouched h a c.
Proof.
  unfold books_untouched. intros [? [? ?]] [? [? ?]]. repeat split; congruence.
Qed.

Lemma books_untouched_getHighlights (w : World) :
  books_untouched (fulfilled (fst (getHighlights w))) w (snd (getHighlights w)).
Proof.
  unfold books_untouched. rewrite getHighlights_calls, filter_app.
  repeat split; try (primitive w; reflexivity).
  destruct (c_highlights (cache w)); simpl; now rewrite app_nil_r.
Qed.

Lemma books_untouched_createHighlight (h : Highlight) (b : BookDoc) (w : World) :
  books_untouched (fulfilled (fst (createHighlight h b w))) w
    (snd (createHighlight h b w)).
Proof.
  unfold books_untouched. rewrite createHighlight_calls, filter_app.
  repeat split; try (primitive w; reflexivity).
  simpl. now rewrite app_nil_r.
Qed.

Lemma highlights_untouched_refl (f : bool) (w : World) : highlights_untouched f w w.
Proof. repeat split. Qed.

Lemma highlights_untouched_trans (f g h : bool) (a b c : World) :
  highlights_untouched f a b -> highlights_untouched g b c ->
  highlights_untouched h a c.
Proof.
  unfold highlights_untouched. intros [? [? ?]] [? [? ?]]. repeat split; congruence.
Qed.

Lemma highlights_untouched_getBooks (w : World) :
  highlights_untouched (fulfilled (fst (getBooks w))) w (snd (getBooks w)).
Proof.
  unfold highlights_untouched. rewrite getBooks_calls, filter_app.
  repeat split; try (primitive w; reflexivity).
  destruct (c_books (cache w)); simpl; now rewrite app_nil_r.
Qed.

Lemma highlights_untouched_createBook (p : BookParams) (w : World) :
  highlights_untouched (fulfilled (fst (createBook p w))) w (snd (createBook p w)).
Proof.
  unfold highlights_untouched. rewrite createBook_calls, filter_app.
  repeat split; try (primitive w; reflexivity).
  simpl. now rewrite app_nil_r.
Qed.

Lemma createHighlights_books_untouched (hs : list Highlight) (b : BookDoc) (w : World) :
  books_untouched true w (snd (createHighlights hs b w)).
Proof.
  apply (respects_createHighlights books_untouched).
  - intros v. apply books_untouched_refl.
  - intros f a0 b0 c. apply books_untouched_trans.
  - intros ls v. repeat split.
  - apply books_untouched_getHighlights.
  - apply books_untouched_createHighlight.
Qed.

Lemma getBook_highlights_untouched (p : BookParams) (w : World) :
  highlights_untouched true w (snd (getBook p w)).
Proof.
  apply (respects_getBook highlights_untouched).
  - intros v. apply highlights_untouched_refl.
  - intros f a0 b0 c. apply highlights_untouched_trans.
  - apply highlights_untouched_getBooks.
  - apply highlights_untouched_createBook.
Qed.

(** X3. Writing highlights never touches the book collection, and resolving
    a book never touches the highlight collection: the store's documents,
    the cached listing and the requests received for the other collection
    are as before, whatever the outcome. *)
Theorem writer_and_resolver_keep_apart (hs : list Highlight) (b : BookDoc)
  (p : BookParams) (w : World) :
  let written := snd (createHighlights hs b w) in
  let resolved := snd (getBook p w) in
  (r_books (siteleaf written) = r_books (siteleaf w)
   /\ c_books (cache written) = c_books (cache w)
   /\ filter is_book_call (r_calls (siteleaf written))
      = filter is_book_call (r_calls (siteleaf w)))
  /\ (r_highlights (siteleaf resolved) = r_highlights (siteleaf w)
      /\ c_highlights (cache resolved) = c_highlights (cache w)
      /\ filter is_highlight_call (r_calls (siteleaf resolved))
         = filter is_highlight_call (r_calls (siteleaf w))).
Proof.
  cbv zeta. split.
  - apply createHighlights_books_untouched.
  - apply getBook_highlights_untouched.
Qed.

(** *** What the cache remembers within a process *)

Lemma getBooks_cached (w w1 : World) (bs : list BookDoc) :
  getBooks w = (Fulfilled bs, w1) ->
  c_books (cache w1) = Some bs /\ c_highlights (cache w1) = c_highlights (cache w).
Proof.
  unfold getBooks, list_books.
  destruct (c_books (cache w)) as [bs'|] eqn:C.
  - intros [= <- <-]. auto.
  - destruct (next_fault (siteleaf w)); intros [= <- <-]. auto.
Qed.

Lemma getBook_cached (p : BookParams) (w w1 : World) (b : BookDoc) :
  getBook p w = (Fulfilled b, w1) ->
  exists bs,
    c_books (cache w1) = Some bs
    /\ findWhere_original_title (bp_title p) bs = Some b
    /\ c_highlights (cache w1) = c_highlights (cache w).
Proof.
  unfold getBook, andThen.
  destruct (getBooks w) as [[bs| e |] w0] eqn:G; try discriminate.
  destruct (getBooks_cached w w0 bs G) as [C H].
  destruct (findWhere_original_title (bp_title p) bs) as [existing|] eqn:F.
  - intros [= <- <-]. exists bs. auto.
  - unfold createBook, create_book. simpl.
    destruct (next_fault (siteleaf w0)); simpl; [discriminate|].
    rewrite C. intros [= <- <-]. simpl. eexists. split; [reflexivity|].
    split; [|exact H].
    unfold findWhere_original_title in *. apply find_first.
    + intros y Hy. exact (find_none _ _ F y Hy).
    + unfold has_original_title. simpl. apply String.eqb_refl.
Qed.

Lemma writer_all_cached (book : BookDoc) (n : nat) (l : list Highlight) :
  forall (i : nat) (w w' : World) (hs : list HighlightDoc),
    c_highlights (cache w) = Some hs ->
    eachSeries (write_one book n) i l w = (Fulfilled tt, w') ->
    exists docs,
      c_highlights (cache w') = Some (hs ++ docs)
      /\ forall h, In h l -> is_duplicate book docs h = true.
Proof.
  induction l as [|x l IH]; intros i w w' hs Hc E; simpl in E.
  - injection E as <-. exists []. rewrite app_nil_r. split; [exact Hc | intros h []].
  - destruct (write_one book n i x w) as [[[]| e |] w1] eqn:W; try discriminate.
    destruct (write_one_fulfilled book n i x w w1 hs Hc W)
      as [doc [Hb [Hu [C1 _]]]].
    destruct (IH (S i) w1 w' _ C1 E) as [docs [C' D']].
    exists (doc :: docs). split.
    + rewrite C', <- app_assoc. reflexivity.
    + intros h [<- | Hin]; simpl.
      * rewrite Hu, Hb, !String.eqb_refl. reflexivity.
      * rewrite (D' h Hin). apply orb_true_r.
Qed.

Lemma createHighlights_cached (hs : list Highlight) (book : BookDoc) (w w' : World) :
  createHighlights hs book w = (Fulfilled tt, w') ->
  exists listing,
    c_highlights (cache w') = Some listing
    /\ forall h, In h hs -> is_duplicate book listing h = true.
Proof.
  unfold createHighlights, andThen.
  destruct (getHighlights w) as [[existing| e |] w0] eqn:G; try discriminate.
  pose proof (getHighlights_fulfilled w w0 existing G) as C0.
  rewrite filterOutExistingHighlights_spec. unfold filterNew_spec.
  destruct (filter (fun h => negb (is_duplicate book existing h)) hs)
    as [|x l] eqn:Fl.
  - intros [= <-]. exists existing. split; [exact C0|].
    intros h Hin. destruct (is_duplicate book existing h) eqn:D; [reflexivity|].
    assert (X : In h (filter (fun h => negb (is_duplicate book existing h)) hs))
      by (apply filter_In; now rewrite D).
    rewrite Fl in X. destruct X.
  - intros E.
    apply (writer_all_cached book _ (x :: l) 1 _ w' existing) in E; [|exact C0].
    destruct E as [docs [C' D']]. exists (existing ++ docs). split; [exact C'|].
    intros h Hin. rewrite is_duplicate_app.
    destruct (is_duplicate book existing h) eqn:D; [reflexivity|].
    simpl. apply D'. rewrite <- Fl. apply filter_In. now rewrite D.
Qed.

Lemma filter_none {A} (f : A -> bool) (l : list A) :
  (forall x, In x l -> f x = false) -> filter f l = [].
Proof.
  induction l as [|x l IH]; intros H; simpl; [reflexivity|].
  rewrite (H x (or_introl eq_refl)). apply IH. intros y Hy. apply H. now right.
Qed.

(** A tuple whose book and highlights the cache already holds is dealt with
    from the cache alone. *)
Lemma addBookAndHighlights_from_cache (book : Book) (hs : list Highlight) (w : World)
  (bs : list BookDoc) (b : BookDoc) (listing : list HighlightDoc) :
  c_books (cache w) = Some bs ->
  findWhere_original_title (title book) bs = Some b ->
  c_highlights (cache w) = Some listing ->
  (forall h, In h hs -> is_duplicate b listing h = true) ->
  exists w2,
    addBookAndHighlights book hs w = (Fulfilled tt, w2)
    /\ siteleaf w2 = siteleaf w
    /\ cache w2 = cache w.
Proof.
  intros Cb F Ch D. unfold addBookAndHighlights.
  destruct hs as [|h hs]; [exists w; auto|].
  unfold andThen, getBook, andThen, getBooks. simpl. rewrite Cb, F. simpl.
  unfold createHighlights, andThen, getHighlights. simpl. rewrite Ch.
  rewrite filterOutExistingHighlights_spec. unfold filterNew_spec.
  rewrite filter_none.
  - eexists. split; [reflexivity|]. split; reflexivity.
  - intros x Hx. now rewrite (D x Hx).
Qed.

(** X4. Within one process, a tuple that has been synchronised successfully
    is dealt with from the cache when it comes again: the second time is
    fulfilled and leaves the store, the calls it has received included, and
    the cache exactly as they were. *)
Theorem second_time_from_cache (book : Book) (hs : list Highlight) (w w1 : World) :
  addBookAndHighlights book hs w = (Fulfilled tt, w1) ->
  exists w2,
    addBookAndHighlights book hs w1 = (Fulfilled tt, w2)
    /\ siteleaf w2 = siteleaf w1
    /\ cache w2 = cache w1.
Proof.
  destruct hs as [|h hs]; [intros _; exists w1; auto|].
  intros E. revert E. unfold addBookAndHighlights at 1. unfold andThen.
  set (w0 := draw (console_log (Time (timerName book)) w)).
  set (p := {| bp_title := title book; bp_metadata := _ |}).
  destruct (getBook p w0) as [[b| e |] wb] eqn:G; try discriminate.
  destruct (getBook_cached p w0 wb b G) as [bs [Cb [F _]]].
  destruct (createHighlights (h :: hs) b wb) as [[[]| e |] wc] eqn:C; try discriminate.
  intros [= <-].
  destruct (createHighlights_cached (h :: hs) b wb wc C) as [listing [Ch D]].
  destruct (createHighlights_books_untouched (h :: hs) b wb) as [_ [Cb' _]].
  rewrite C in Cb'. simpl in Cb'.
  apply (addBookAndHighlights_from_cache book (h :: hs) _ bs b listing);
    try assumption.
  simpl. congruence.
Qed.

(** X5. Resolving a title is stable within a process: once [getBook] has
    answered with a record, be it found or just created, any later
    resolution of the same title answers with that same record, straight
    from the cache and without changing anything. *)
Theorem getBook_again_same_record (p p' : BookParams) (w w1 : World) (b : BookDoc) :
  getBook p w = (Fulfilled b, w1) ->
  bp_title p' = bp_title p ->
  getBook p' w1 = (Fulfilled b, w1).
Proof.
  intros G T. destruct (getBook_cached p w w1 b G) as [bs [Cb [F _]]].
  unfold getBook, andThen, getBooks. now rewrite Cb, T, F.
Qed.

(** *** The writer on a store that accepts every request *)

Lemma reliable_next (r : Remote) :
  reliable r = true -> next_fault r = false.
Proof.
  unfold reliable, next_fault. destruct (r_faults r) as [|f fs]; simpl; [reflexivity|].
  intros H. apply andb_true_iff in H as [H _]. now destruct f.
Qed.

Lemma reliable_tl (fs : list bool) :
  forallb negb fs = true -> forallb negb (tl fs) = true.
Proof.
  destruct fs as [|f fs]; simpl; [trivial|].
  intros H. now apply andb_true_iff in H as [_ H].
Qed.

Lemma write_all_reliable (book : BookDoc) (n : nat) (l : list Highlight) :
  forall (i : nat) (w : World) (hs : list HighlightDoc),
    c_highlights (cache w) = Some hs ->
    reliable (siteleaf w) = true ->
    exists w',
      eachSeries (write_one book n) i l w = (Fulfilled tt, w')
      /\ r_highlights (siteleaf w')
         = r_highlights (siteleaf w)
           ++ written_docs book (r_next_id (siteleaf w)) (entropy w) l
      /\ c_highlights (cache w')
         = Some (hs ++ written_docs book (r_next_id (siteleaf w)) (entropy w) l)
      /\ console w' = console w ++ progress book n i l.
Proof.
  induction l as [|x l IH]; intros i w hs Hc Hr; simpl.
  - exists w. now rewrite !app_nil_r.
  - pose proof (reliable_next _ Hr) as Hf.
    unfold write_one at 1. unfold andThen, createHighlight, create_highlight. simpl.
    rewrite Hf, Hc. simpl.
    match goal with
    | |- exists w', eachSeries _ _ _ ?w1 = _ /\ _ =>
        destruct (IH (S i) w1 (hs ++ [{| highlight_id := r_next_id (siteleaf w);
                                         highlight_fields :=
                                           createHighlight_params x book
                                             (uuid_v4 (entropy w)) |}]))
          as [w' [E [H [C L]]]];
        [ reflexivity | simpl; apply reliable_tl; exact Hr | ]
    end.
    exists w'. split; [exact E|]. simpl in H, C, L.
    rewrite H, C, L, <- !app_assoc. simpl. repeat split.
Qed.

Lemma getHighlights_keeps_counters (w w0 : World) (existing : list HighlightDoc) :
  getHighlights w = (Fulfilled existing, w0) ->
  entropy w0 = entropy w
  /\ r_next_id (siteleaf w0) = r_next_id (siteleaf w)
  /\ console w0 = console w.
Proof.
  unfold getHighlights, list_highlights.
  destruct (c_highlights (cache w)); [intros [= _ <-]; auto|].
  destruct (next_fault (siteleaf w)); intros [= _ <-]; auto.
Qed.

Lemma createHighlights_reliable (hs : list Highlight) (book : BookDoc) (w w0 : World)
  (existing : list HighlightDoc) :
  getHighlights w = (Fulfilled existing, w0) ->
  reliable (siteleaf w0) = true ->
  exists w',
    createHighlights hs book w = (Fulfilled tt, w')
    /\ r_highlights (siteleaf w')
       = r_highlights (siteleaf w0)
         ++ written_docs book (r_next_id (siteleaf w0)) (entropy w0)
              (filterOutExistingHighlights book hs existing)
    /\ c_highlights (cache w')
       = Some (existing
               ++ written_docs book (r_next_id (siteleaf w0)) (entropy w0)
                    (filterOutExistingHighlights book hs existing))
    /\ console w'
       = console w0
         ++ filterOutExistingHighlights_log book hs existing
         ++ match filterOutExistingHighlights book hs existing with
            | [] => []
            | survivors =>
                Creating (length survivors) (bp_title (book_fields book))
                :: progress book (length survivors) 1 survivors
            end.
Proof.
  intros G Hr. pose proof (getHighlights_fulfilled w w0 existing G) as Hc.
  unfold createHighlights, andThen. rewrite G.
  destruct (filterOutExistingHighlights book hs existing) as [|x l] eqn:Fl.
  - eexists. split; [reflexivity|]. simpl. now rewrite !app_nil_r.
  - set (n := length (x :: l)).
    set (w1 := console_log (Creating n (bp_title (book_fields book)))
                 (console_logs (filterOutExistingHighlights_log book hs existing) w0)).
    destruct (write_all_reliable book n (x :: l) 1 w1 existing Hc Hr)
      as [w' [E [H [C L]]]].
    exists w'. split; [exact E|]. split; [exact H|]. split; [exact C|].
    rewrite L. simpl. rewrite <- !app_assoc. reflexivity.
Qed.

Lemma written_docs_shape (book : BookDoc) (l : list Highlight) :
  forall id token,
    map (fun d => body (highlight_fields d)) (written_docs book id token l)
    = map content l
    /\ map highlight_id (written_docs book id token l) = seq id (length l).
Proof.
  induction l as [|x l IH]; intros id token; simpl; [split; reflexivity|].
  destruct (IH (S id) (S token)) as [B I]. now rewrite B, I.
Qed.

(** X6. On a store that accepts every request, the writer is fulfilled and
    has stored exactly the candidates that survive deduplication, in the
    order submitted, under consecutive identifiers; the cache ends as the
    listing followed by those same documents. *)
Theorem writer_stores_survivors_in_order (hs : list Highlight) (book : BookDoc)
  (w w0 : World) (existing : list HighlightDoc) :
  getHighlights w = (Fulfilled existing, w0) ->
  reliable (siteleaf w0) = true ->
  let docs := written_docs book (r_next_id (siteleaf w0)) (entropy w0)
                (filterOutExistingHighlights book hs existing) in
  exists w',
    createHighlights hs book w = (Fulfilled tt, w')
    /\ r_highlights (siteleaf w') = r_highlights (siteleaf w0) ++ docs
    /\ c_highlights (cache w') = Some (existing ++ docs)
    /\ map (fun d => body (highlight_fields d)) docs
       = map content (filterOutExistingHighlights book hs existing)
    /\ map highlight_id docs
       = seq (r_next_id (siteleaf w0))
             (length (filterOutExistingHighlights book hs existing)).
Proof.
  intros G Hr docs.
  destruct (createHighlights_reliable hs book w w0 existing G Hr) as [w' [E [H [C _]]]].
  exists w'. split; [exact E|]. split; [exact H|]. split; [exact C|].
  apply written_docs_shape.
Qed.

(** X7. The lines the writer prints on such a store: those of the
    deduplication, then, when something is left to write, the announcement
    of how many and, for each candidate in turn, its invalid date if any
    and its position counted from 1. *)
Theorem writer_console_output (hs : list Highlight) (book : BookDoc)
  (w w0 : World) (existing : list HighlightDoc) :
  getHighlights w = (Fulfilled existing, w0) ->
  reliable (siteleaf w0) = true ->
  let survivors := filterOutExistingHighlights book hs existing in
  console (snd (createHighlights hs book w))
  = console w
    ++ filterOutExistingHighlights_log book hs existing
    ++ match survivors with
       | [] => []
       | _ =>
           Creating (length survivors) (bp_title (book_fields book))
           :: progress book (length survivors) 1 survivors
       end
  /\ map (fun l => match l with Created i _ _ => Some i | _ => None end)
         (filter (fun l => match l with Created _ _ _ => true | _ => false end)
                 (progress book (length survivors) 1 survivors))
     = map Some (seq 1 (length survivors)).
Proof.
  intros G Hr survivors.
  destruct (createHighlights_reliable hs book w w0 existing G Hr) as [w' [E [_ [_ L]]]].
  destruct (getHighlights_keeps_counters w w0 existing G) as [_ [_ K]].
  rewrite E. simpl. rewrite L, K. split.
  { subst survivors.
    destruct (filterOutExistingHighlights book hs existing); reflexivity. }
  generalize (length survivors) at 1. generalize 1.
  induction survivors as [|x l IH]; intros i n; simpl; [reflexivity|].
  rewrite filter_app, map_app. simpl. rewrite IH.
  unfold createHighlight_log.
  destruct (ToBoolean (date x)); [destruct (moment_iso (date x))|]; reflexivity.
Qed.

Lemma is_duplicate_same_text (book : BookDoc) (existing : list HighlightDoc)
  (h h' : Highlight) :
  trim (content h) = trim (content h') ->
  is_duplicate book existing h = is_duplicate book existing h'.
Proof. intros E. unfold is_duplicate. now rewrite E. Qed.

(** X8. Candidates are only compared with what the cache holds when the
    batch starts, not with each other: two candidates of one batch with the
    same trimmed text, new to the book, are both stored. *)
Theorem duplicates_within_a_batch_are_both_stored (h h' : Highlight) (book : BookDoc)
  (w w0 : World) (existing : list HighlightDoc) :
  getHighlights w = (Fulfilled existing, w0) ->
  reliable (siteleaf w0) = true ->
  trim (content h) = trim (content h') ->
  is_duplicate book existing h = false ->
  exists w' d d',
    createHighlights [h; h'] book w = (Fulfilled tt, w')
    /\ r_highlights (siteleaf w') = r_highlights (siteleaf w0) ++ [d; d']
    /\ body (highlight_fields d) = content h
    /\ body (highlight_fields d') = content h'
    /\ book_uuid (hp_metadata (highlight_fields d)) = uuid (bp_metadata (book_fields book))
    /\ book_uuid (hp_metadata (highlight_fields d')) = uuid (bp_metadata (book_fields book))
    /\ trim (body (highlight_fields d)) = trim (body (highlight_fields d')).
Proof.
  intros G Hr T D.
  destruct (createHighlights_reliable [h; h'] book w w0 existing G Hr)
    as [w' [E [H _]]].
  assert (S : filterOutExistingHighlights book [h; h'] existing = [h; h']).
  { rewrite filterOutExistingHighlights_spec. unfold filterNew_spec. simpl.
    rewrite <- (is_duplicate_same_text book existing h h' T), D. reflexivity. }
  rewrite S in H. simpl in H.
  eexists w', _, _. split; [exact E|]. split; [exact H|]. simpl. auto.
Qed.

(** *** What a settlement tells of the remote calls *)

Lemma stopped_at_app (p : Request -> bool) (a b : list (Request * bool)) :
  forallb snd a = true -> stopped_at p b -> stopped_at p (a ++ b).
Proof.
  intros Ha [pre [q [E [Hp Hq]]]]. exists (a ++ pre), q. subst b.
  rewrite app_assoc, forallb_app, Ha, Hp. auto.
Qed.

Lemma stopped_at_weaken (p p' : Request -> bool) (new : list (Request * bool)) :
  (forall q, p q = true -> p' q = true) -> stopped_at p new -> stopped_at p' new.
Proof. intros H [pre [q [E [Hp Hq]]]]. exists pre, q. auto. Qed.

Lemma tells_quiet {A} (a : A) (w w' : World) :
  siteleaf w' = siteleaf w -> tells (Fulfilled a) w w'.
Proof. intros E. exists []. rewrite E, app_nil_r. split; reflexivity. Qed.

Lemma tells_after {A B} (a : A) (o : Outcome B) (w w1 w2 : World) :
  tells (Fulfilled a) w w1 -> tells o w1 w2 -> tells o w w2.
Proof.
  intros [n1 [E1 H1]] [n2 [E2 H2]]. exists (n1 ++ n2). split.
  - now rewrite E2, E1, app_assoc.
  - simpl in H1. destruct o as [b| e |]; simpl in *.
    + now rewrite forallb_app, H1, H2.
    + destruct H2 as [He Hs]. split; [exact He | now apply stopped_at_app].
    + now apply stopped_at_app.
Qed.

Lemma tells_getBooks (w : World) : tells (fst (getBooks w)) w (snd (getBooks w)).
Proof.
  unfold tells. rewrite getBooks_calls.
  unfold getBooks, list_books.
  destruct (c_books (cache w)); simpl; [exists []; split; reflexivity|].
  eexists. split; [reflexivity|].
  destruct (next_fault (siteleaf w)); simpl; [|reflexivity].
  split; [reflexivity|]. eexists [], _. repeat split.
Qed.

Lemma tells_getHighlights (w : World) :
  tells (fst (getHighlights w)) w (snd (getHighlights w)).
Proof.
  unfold tells. rewrite getHighlights_calls.
  unfold getHighlights, list_highlights.
  destruct (c_highlights (cache w)); simpl; [exists []; split; reflexivity|].
  eexists. split; [reflexivity|].
  destruct (next_fault (siteleaf w)); simpl; [|reflexivity].
  split; [reflexivity|]. eexists [], _. repeat split.
Qed.

Lemma tells_createBook (p : BookParams) (w : World) (bs : list BookDoc) :
  c_books (cache w) = Some bs ->
  tells (fst (createBook p w)) w (snd (createBook p w)).
Proof.
  intros C. unfold tells. rewrite createBook_calls.
  eexists. split; [reflexivity|].
  unfold createBook, create_book. simpl.
  destruct (next_fault (siteleaf w)); simpl.
  - split; [reflexivity|]. eexists [], _. repeat split.
  - rewrite C. reflexivity.
Qed.

Lemma tells_getBook (p : BookParams) (w : World) :
  tells (fst (getBook p w)) w (snd (getBook p w)).
Proof.
  unfold getBook, andThen. pose proof (tells_getBooks w) as T.
  destruct (getBooks w) as [[bs| e |] w1] eqn:G; simpl in *; try exact T.
  destruct (getBooks_cached w w1 bs G) as [C _].
  destruct (findWhere_original_title (bp_title p) bs); [exact T|].
  eapply tells_after; [exact T | now apply (tells_createBook p w1 bs)].
Qed.

Lemma tells_writer (book : BookDoc) (n : nat) (l : list Highlight) :
  forall (i : nat) (w : World) (hs : list HighlightDoc),
    c_highlights (cache w) = Some hs ->
    tells (fst (eachSeries (write_one book n) i l w)) w
      (snd (eachSeries (write_one book n) i l w)).
Proof.
  induction l as [|x l IH]; intros i w hs Hc; simpl.
  - now apply tells_quiet.
  - destruct (next_fault (siteleaf w)) eqn:F.
    + assert (Hf : r_faults (siteleaf w) = true :: tl (r_faults (siteleaf w))).
      { unfold next_fault in F. destruct (r_faults (siteleaf w)); [discriminate|].
        simpl in *. now subst. }
      destruct (write_one_refused book n i x w _ Hf) as [w1 [p [E [_ [_ [_ L]]]]]].
      rewrite E. simpl. exists [(POST_highlight p, false)]. split; [exact L|].
      exists [], (POST_highlight p). repeat split.
    + destruct (write_one_accepted book n i x w hs Hc F)
        as [w1 [doc [E [_ [_ [C1 [_ [_ [_ [_ L]]]]]]]]]].
      rewrite E. eapply (tells_after tt); [|exact (IH (S i) w1 _ C1)].
      eexists. split; [exact L | reflexivity].
Qed.

Lemma tells_createHighlights (hs : list Highlight) (book : BookDoc) (w : World) :
  tells (fst (createHighlights hs book w)) w (snd (createHighlights hs book w)).
Proof.
  unfold createHighlights, andThen. pose proof (tells_getHighlights w) as T.
  destruct (getHighlights w) as [[existing| e |] w0] eqn:G; simpl in *; try exact T.
  pose proof (getHighlights_fulfilled w w0 existing G) as C0.
  destruct (filterOutExistingHighlights book hs existing) as [|x l]; [exact T|].
  eapply tells_after; [exact T|].
  set (w1 := console_log _ (console_logs _ w0)).
  exact (tells_writer book _ (x :: l) 1 w1 existing C0).
Qed.

Lemma tells_addBookAndHighlights (book : Book) (hs : list Highlight) (w : World) :
  tells (fst (addBookAndHighlights book hs w)) w (snd (addBookAndHighlights book hs w)).
Proof.
  unfold addBookAndHighlights. destruct hs as [|h hs]; [now apply tells_quiet|].
  set (w0 := draw (console_log (Time (timerName book)) w)).
  set (p := {| bp_title := title book; bp_metadata := _ |}).
  assert (T0 : tells (Fulfilled tt) w w0) by now apply tells_quiet.
  unfold andThen. pose proof (tells_getBook p w0) as Tb.
  destruct (getBook p w0) as [[b| e |] wb]; simpl in *;
    try (eapply tells_after; [exact T0 | exact Tb]).
  pose proof (tells_createHighlights (h :: hs) b wb) as Th.
  destruct (createHighlights (h :: hs) b wb) as [[[]| e |] wc]; simpl in *;
    (eapply tells_after; [exact T0|]; eapply tells_after; [exact Tb|]).
  - destruct Th as [new [E H]]. exists new. split; [exact E | exact H].
  - exact Th.
  - exact Th.
Qed.

(** X9. How a tuple's promise settles tells which remote call failed.
    Fulfilled: every call made for the tuple succeeded.  Rejected: the
    error is the remote one, the last call made is the one that failed, and
    it is a listing or the creation of the book.  Never settled: the last
    call made is the one that failed, and it is the creation of a
    highlight.  In each case no call follows a failed one. *)
Theorem settlement_tells_the_failed_call (book : Book) (hs : list Highlight)
  (w : World) :
  let (outcome, w') := addBookAndHighlights book hs w in
  exists new,
    r_calls (siteleaf w') = r_calls (siteleaf w) ++ new
    /\ match outcome with
       | Fulfilled _ => forallb snd new = true
       | Rejected e =>
           e = RemoteError
           /\ exists pre q,
               new = pre ++ [(q, false)] /\ forallb snd pre = true
               /\ is_highlight_post q = false
       | Pending =>
           exists pre q,
             new = pre ++ [(q, false)] /\ forallb snd pre = true
             /\ is_highlight_post q = true
       end.
Proof.
  pose proof (tells_addBookAndHighlights book hs w) as [new [E T]].
  destruct (addBookAndHighlights book hs w) as [o w']. simpl in *.
  exists new. split; [exact E|].
  destruct o as [a| e |]; simpl in T; [exact T | |exact T].
  destruct T as [He [pre [q [En [Hp Hq]]]]]. split; [exact He|].
  exists pre, q. repeat split; try assumption. now apply negb_true_iff.
Qed.

Lemma tells_of_run_after {A B} (a : A) (o : Outcome B) (w w1 w2 : World) :
  tells (Fulfilled a) w w1 -> tells_of_run o w1 w2 -> tells_of_run o w w2.
Proof.
  intros [n1 [E1 H1]] [n2 [E2 H2]]. exists (n1 ++ n2). split.
  - now rewrite E2, E1, app_assoc.
  - simpl in H1. destruct o as [b| e |]; simpl in *.
    + now rewrite forallb_app, H1, H2.
    + exact H2.
    + now apply stopped_at_app.
Qed.

Lemma tells_of_run_series (ts : list Tuple) :
  forall (i : nat) (w : World),
    tells_of_run (fst (eachSeries sync_one i ts w)) w
      (snd (eachSeries sync_one i ts w)).
Proof.
  induction ts as [|t ts IH]; intros i w; simpl.
  - exists []. rewrite app_nil_r. split; reflexivity.
  - unfold sync_one at 1 3.
    pose proof (tells_addBookAndHighlights (res_book t) (res_highlights t) w) as T.
    destruct (addBookAndHighlights (res_book t) (res_highlights t) w)
      as [[[]| e |] w1]; simpl in *.
    + eapply tells_of_run_after; [exact T | apply IH].
    + destruct T as [new [E [_ S]]]. exists new. split; [exact E|].
      simpl. eapply stopped_at_weaken; [|exact S]. reflexivity.
    + destruct T as [new [E S]]. exists new. split; [exact E|].
      simpl. eapply stopped_at_weaken; [|exact S]. reflexivity.
Qed.

(** X10. The promise of [parse] is never rejected.  It is fulfilled when
    every remote call of the run succeeded and is left pending otherwise;
    in that case the failed call is the last the run makes: nothing is
    retried and nothing follows. *)
Theorem parse_fulfilled_or_pending (mail : Parsers) (w : World) :
  let (outcome, w') := parse mail w in
  exists new,
    r_calls (siteleaf w') = r_calls (siteleaf w) ++ new
    /\ match outcome with
       | Fulfilled _ => forallb snd new = true
       | Rejected _ => False
       | Pending =>
           exists pre q, new = pre ++ [(q, false)] /\ forallb snd pre = true
       end.
Proof.
  unfold parse, andThen, synchronize.
  set (w0 := console_log (Time "complete") w).
  pose proof (tells_of_run_series (results mail) 0 w0) as [new [E T]].
  destruct (eachSeries sync_one 0 (results mail) w0) as [[[]| e |] w1];
    simpl in *; exists new; (split; [exact E|]); try exact T.
  destruct T as [pre [q [En [Hp _]]]]. exists pre, q. auto.
Qed.

(** *** Runs with nothing to write *)

Lemma series_of_empty_tuples (ts : list Tuple) :
  (forall t, In t ts -> res_highlights t = []) ->
  forall (i : nat) (w : World), eachSeries sync_one i ts w = (Fulfilled tt, w).
Proof.
  induction ts as [|t ts IH]; intros H i w; simpl; [reflexivity|].
  unfold sync_one at 1. rewrite (H t (or_introl eq_refl)). simpl.
  apply IH. intros t' Hin. apply H. now right.
Qed.

(** X11. A mail none of whose tuples has a highlight, or that no parser can
    read, is a run without any effect but its two timer lines: it is
    fulfilled, no remote call is made, no book is created, and the caches
    and the uuid source are as before. *)
Theorem run_without_highlights_does_nothing (mail : Parsers) (w : World) :
  (forall t, In t (results mail) -> res_highlights t = []) ->
  let (outcome, w') := parse mail w in
  outcome = Fulfilled tt
  /\ siteleaf w' = siteleaf w
  /\ cache w' = cache w
  /\ entropy w' = entropy w
  /\ console w' = console w ++ [Time "complete"; TimeEnd "complete"].
Proof.
  intros H. unfold parse, andThen, synchronize.
  rewrite (series_of_empty_tuples (results mail) H). simpl.
  repeat split. now rewrite <- app_assoc.
Qed.

(** *** One book per original title *)

Lemma titles_unique_add (bs : list BookDoc) (doc : BookDoc) (t : string) :
  titles_unique bs ->
  findWhere_original_title t bs = None ->
  original_title (bp_metadata (book_fields doc)) = Some t ->
  titles_unique (bs ++ [doc]).
Proof.
  intros U F T t'. rewrite filter_app, length_app. simpl.
  destruct (has_original_title t' doc) eqn:H; simpl.
  - apply has_original_title_iff in H. rewrite T in H. injection H as <-.
    rewrite (filter_none (has_original_title t) bs); [simpl; lia|].
    intros x Hx. exact (find_none _ _ F x Hx).
  - specialize (U t'). lia.
Qed.

Lemma keeps_titles_same_books (f : bool) (w w' : World) :
  (coherent w -> coherent w') ->
  r_books (siteleaf w') = r_books (siteleaf w) ->
  keeps_titles f w w'.
Proof. intros Hc E [C U]. rewrite E. auto. Qed.

Lemma keeps_titles_trans (f : bool) (a b c : World) :
  keeps_titles true a b -> keeps_titles f b c -> keeps_titles f a c.
Proof. intros Hab Hbc H. exact (Hbc (Hab H)). Qed.

Lemma keeps_titles_getBook (p : BookParams) :
  respects keeps_titles (getBook p).
Proof.
  intros w [Hc U].
  split.
  { exact (respects_getBook stays_coherent
             (fun v H => H) (fun f a b c Hab Hbc H => Hbc (Hab H))
             stays_coherent_getBooks stays_coherent_createBook p w Hc). }
  unfold getBook, andThen.
  destruct (getBooks_reads_only w) as [B _].
  destruct (getBooks w) as [[bs| e |] w1] eqn:G; simpl in *;
    try (rewrite B; exact U).
  destruct (getBooks_fulfilled w w1 bs Hc G) as [_ [_ [E1 _]]].
  destruct (findWhere_original_title (bp_title p) bs) as [existing|] eqn:F;
    [simpl; rewrite B; exact U|].
  unfold createBook, create_book. simpl.
  destruct (next_fault (siteleaf w1)); simpl; [rewrite B; exact U|].
  assert (U' : titles_unique
                 (r_books (siteleaf w1)
                  ++ [{| book_id := r_next_id (siteleaf w1);
                         book_fields :=
                           {| bp_title := bp_title p;
                              bp_metadata :=
                                {| bm_author := bm_author (bp_metadata p);
                                   bm_asin := bm_asin (bp_metadata p);
                                   uuid := uuid (bp_metadata p);
                                   original_title := Some (bp_title p);
                                   bm_date := Some (moment_now (clock w1)) |} |} |}])).
  { apply (titles_unique_add _ _ (bp_title p)).
    - rewrite B. exact U.
    - rewrite <- E1. exact F.
    - reflexivity. }
  destruct (c_books (cache w1)); exact U'.
Qed.

Lemma keeps_titles_createHighlights (hs : list Highlight) (b : BookDoc) :
  respects keeps_titles (createHighlights hs b).
Proof.
  intros w. apply keeps_titles_same_books.
  - exact (respects_createHighlights stays_coherent
             (fun v H => H) (fun f a b0 c Hab Hbc H => Hbc (Hab H))
             (fun ls v H => H)
             stays_coherent_getHighlights stays_coherent_createHighlight hs b w).
  - apply createHighlights_books_untouched.
Qed.

Lemma keeps_titles_addBookAndHighlights (book : Book) (hs : list Highlight) :
  respects keeps_titles (addBookAndHighlights book hs).
Proof.
  intros w. unfold addBookAndHighlights.
  destruct hs as [|h hs]; [intros H; exact H|].
  set (w0 := draw (console_log (Time (timerName book)) w)).
  set (p := {| bp_title := title book; bp_metadata := _ |}).
  apply (keeps_titles_trans _ w w0); [intros H; exact H|].
  apply (respects_andThen keeps_titles keeps_titles_trans);
    [apply keeps_titles_getBook|].
  intros b. apply (respects_andThen keeps_titles keeps_titles_trans);
    [apply keeps_titles_createHighlights|].
  intros _ v H. exact H.
Qed.

(** X12. The run keeps the store free of books with the same original
    title: in a process whose cache mirrors the store, if no two stored
    books share an original title before [parse], none do after it, whatever
    the mail and whichever calls fail. *)
Theorem parse_keeps_one_book_per_title (mail : Parsers) (w : World) :
  coherent w ->
  titles_unique (r_books (siteleaf w)) ->
  titles_unique (r_books (siteleaf (snd (parse mail w)))).
Proof.
  intros Hc U.
  assert (R : respects keeps_titles (parse mail)).
  { intros v. unfold parse.
    set (v0 := console_log (Time "complete") v).
    apply (keeps_titles_trans _ v v0); [intros H; exact H|].
    apply (respects_andThen keeps_titles keeps_titles_trans).
    - apply (respects_eachSeries keeps_titles (fun v H => H) keeps_titles_trans).
      intros i t. apply keeps_titles_addBookAndHighlights.
    - intros _ v1 H. exact H. }
  exact (proj2 (R w (conj Hc U))).
Qed.

(** *** One highlight per book and text *)

Lemma is_duplicate_same_text_filter (book : BookDoc) (existing : list HighlightDoc)
  (h : Highlight) :
  is_duplicate book existing h = false ->
  filter (same_text (uuid (bp_metadata (book_fields book))) (trim (content h))) existing
  = [].
Proof.
  intros D. apply filter_none. intros x Hx.
  unfold is_duplicate in D.
  destruct (same_text (uuid (bp_metadata (book_fields book))) (trim (content h)) x)
    eqn:S; [|reflexivity].
  assert (X : existsb (same_text (uuid (bp_metadata (book_fields book)))
                                 (trim (content h))) existing = true)
    by (apply existsb_exists; eauto).
  unfold same_text in X. congruence.
Qed.

Lemma bodies_unique_add (existing : list HighlightDoc) (doc : HighlightDoc) :
  bodies_unique existing ->
  filter (same_text (book_uuid (hp_metadata (highlight_fields doc)))
                    (trim (body (highlight_fields doc)))) existing = [] ->
  bodies_unique (existing ++ [doc]).
Proof.
  intros U N u c. rewrite filter_app, length_app. simpl.
  destruct (same_text u c doc) eqn:S; simpl.
  - unfold same_text in S. apply andb_true_iff in S as [Su Sc].
    apply String.eqb_eq in Su, Sc. subst u c. rewrite N. simpl. lia.
  - specialize (U u c). lia.
Qed.

Lemma bodies_unique_add_all (book : BookDoc) (l : list Highlight) :
  forall (docs existing : list HighlightDoc),
    map (fun d => (book_uuid (hp_metadata (highlight_fields d)), body (highlight_fields d)))
        docs
    = map (fun h => (uuid (bp_metadata (book_fields book)), content h)) l ->
    bodies_unique existing ->
    distinct_texts l ->
    (forall h, In h l -> is_duplicate book existing h = false) ->
    bodies_unique (existing ++ docs).
Proof.
  induction l as [|h l IH]; intros docs existing M U N D.
  - destruct docs; [now rewrite app_nil_r | discriminate].
  - destruct docs as [|d docs]; [discriminate|]. simpl in M.
    injection M as Mu Mb M.
    change (existing ++ d :: docs) with (existing ++ [d] ++ docs).
    rewrite app_assoc. inversion N as [|x xs Hnotin Hnd]; subst.
    apply IH; try assumption.
    + apply bodies_unique_add; [exact U|]. rewrite Mu, Mb.
      apply is_duplicate_same_text_filter. apply D. now left.
    + intros h' Hin. rewrite is_duplicate_app, (D h' (or_intror Hin)). simpl.
      rewrite Mu, Mb, String.eqb_refl. simpl.
      destruct (trim (content h) =? trim (content h')) eqn:E; [|reflexivity].
      apply String.eqb_eq in E. exfalso. apply Hnotin. rewrite E.
      apply in_map_iff. exists h'. auto.
Qed.

(** Whatever its outcome, the writer has stored the documents of the
    candidates up to some point of its list, and nothing else. *)
Lemma writer_stores_a_prefix (book : BookDoc) (n : nat) (l : list Highlight) :
  forall (i : nat) (w : World) (hs : list HighlightDoc),
    c_highlights (cache w) = Some hs ->
    exists l1 l2 docs,
      l = l1 ++ l2
      /\ r_highlights (siteleaf (snd (eachSeries (write_one book n) i l w)))
         = r_highlights (siteleaf w) ++ docs
      /\ map (fun d => (book_uuid (hp_metadata (highlight_fields d)),
                        body (highlight_fields d))) docs
         = map (fun h => (uuid (bp_metadata (book_fields book)), content h)) l1.
Proof.
  induction l as [|x l IH]; intros i w hs Hc; simpl.
  - exists [], [], []. repeat split. now rewrite app_nil_r.
  - destruct (next_fault (siteleaf w)) eqn:F.
    + assert (Hf : r_faults (siteleaf w) = true :: tl (r_faults (siteleaf w))).
      { unfold next_fault in F. destruct (r_faults (siteleaf w)); [discriminate|].
        simpl in *. now subst. }
      destruct (write_one_refused book n i x w _ Hf) as [w1 [p [E [_ [_ [H _]]]]]].
      rewrite E. simpl. exists [], (x :: l), []. repeat split.
      now rewrite H, app_nil_r.
    + destruct (write_one_accepted book n i x w hs Hc F)
        as [w1 [doc [E [Hb [Hu [C1 [_ [_ [_ [H1 _]]]]]]]]]].
      rewrite E. destruct (IH (S i) w1 _ C1) as [l1 [l2 [docs [El [H M]]]]].
      exists (x :: l1), l2, (doc :: docs). split; [now rewrite El|]. split.
      * rewrite H, H1, <- app_assoc. reflexivity.
      * simpl. now rewrite Hu, Hb, M.
Qed.

Lemma distinct_texts_filter (f : Highlight -> bool) (l : list Highlight) :
  distinct_texts l -> distinct_texts (filter f l).
Proof.
  unfold distinct_texts. induction l as [|h l IH]; simpl; intros N; [exact N|].
  inversion N as [|x xs Hnotin Hnd]; subst.
  destruct (f h); simpl; [|now apply IH].
  constructor; [|now apply IH].
  intros Hin. apply Hnotin. apply in_map_iff in Hin as [h' [E Hh']].
  apply in_map_iff. exists h'. split; [exact E|]. now apply filter_In in Hh'.
Qed.

Lemma distinct_texts_prefix (l1 l2 : list Highlight) :
  distinct_texts (l1 ++ l2) -> distinct_texts l1.
Proof.
  unfold distinct_texts. rewrite map_app. apply NoDup_app_remove_r.
Qed.

Lemma createHighlights_keeps_bodies_unique (hs : list Highlight) (book : BookDoc)
  (w : World) :
  coherent w ->
  bodies_unique (r_highlights (siteleaf w)) ->
  distinct_texts hs ->
  bodies_unique (r_highlights (siteleaf (snd (createHighlights hs book w)))).
Proof.
  intros Hc U N. unfold createHighlights, andThen.
  pose proof (only_reads_getHighlights w) as [_ [R _]].
  pose proof (stays_coherent_getHighlights w Hc) as Hc0.
  destruct (getHighlights w) as [[existing| e |] w0] eqn:G; simpl in *;
    try (rewrite R; exact U).
  pose proof (getHighlights_fulfilled w w0 existing G) as C0.
  pose proof (coherent_highlights w0 existing Hc0 C0) as E0.
  rewrite filterOutExistingHighlights_spec. unfold filterNew_spec.
  destruct (filter (fun h => negb (is_duplicate book existing h)) hs)
    as [|x l] eqn:Fl; [simpl; rewrite R; exact U|].
  set (w1 := console_log _ (console_logs _ w0)).
  destruct (writer_stores_a_prefix book (length (x :: l)) (x :: l) 1 w1 existing C0)
    as [l1 [l2 [docs [El [H M]]]]].
  rewrite H. apply (bodies_unique_add_all book l1); try assumption.
  - simpl. rewrite R. exact U.
  - apply (distinct_texts_prefix l1 l2). rewrite <- El, <- Fl.
    now apply distinct_texts_filter.
  - intros h Hin.
    assert (X : In h (filter (fun h => negb (is_duplicate book existing h)) hs)).
    { rewrite Fl, El. apply in_or_app. now left. }
    apply filter_In in X as [_ X]. apply negb_true_iff in X.
    simpl. rewrite <- E0. exact X.
Qed.

Lemma addBookAndHighlights_keeps_bodies_unique (book : Book) (hs : list Highlight)
  (w : World) :
  coherent w ->
  bodies_unique (r_highlights (siteleaf w)) ->
  distinct_texts hs ->
  bodies_unique (r_highlights (siteleaf (snd (addBookAndHighlights book hs w)))).
Proof.
  intros Hc U N. unfold addBookAndHighlights.
  destruct hs as [|h hs]; [exact U|].
  set (w0 := draw (console_log (Time (timerName book)) w)).
  set (p := {| bp_title := title book; bp_metadata := _ |}).
  unfold andThen.
  destruct (getBook_highlights_untouched p w0) as [H _].
  pose proof (respects_getBook stays_coherent
                (fun v H => H) (fun f a b c Hab Hbc H => Hbc (Hab H))
                stays_coherent_getBooks stays_coherent_createBook p w0 Hc) as Hcb.
  destruct (getBook p w0) as [[b| e |] wb]; simpl in *; try (rewrite H; exact U).
  assert (Ub : bodies_unique (r_highlights (siteleaf wb))) by (rewrite H; exact U).
  pose proof (createHighlights_keeps_bodies_unique (h :: hs) b wb Hcb Ub N) as K.
  destruct (createHighlights (h :: hs) b wb) as [[[]| e |] wc]; exact K.
Qed.

Lemma series_keeps_bodies_unique (ts : list Tuple) :
  (forall t, In t ts -> distinct_texts (res_highlights t)) ->
  forall (i : nat) (w : World),
    coherent w ->
    bodies_unique (r_highlights (siteleaf w)) ->
    bodies_unique (r_highlights (siteleaf (snd (eachSeries sync_one i ts w)))).
Proof.
  induction ts as [|t ts IH]; intros N i w Hc U; simpl; [exact U|].
  unfold sync_one at 1.
  pose proof (coherent_addBookAndHighlights (res_book t) (res_highlights t) w Hc) as Hc1.
  pose proof (addBookAndHighlights_keeps_bodies_unique (res_book t) (res_highlights t)
                w Hc U (N t (or_introl eq_refl))) as U1.
  destruct (addBookAndHighlights (res_book t) (res_highlights t) w)
    as [[[]| e |] w1]; simpl in *; try exact U1.
  apply IH; try assumption. intros t' Hin. apply N. now right.
Qed.

(** X13. When, within every tuple of the mail, the highlights have pairwise
    different trimmed texts, the run keeps the store free of repeated
    highlights: in a process whose cache mirrors the store, if no two
    stored highlights of one book have the same trimmed text before
    [parse], none do after it, whichever calls fail. *)
Theorem parse_keeps_one_highlight_per_text (mail : Parsers) (w : World) :
  coherent w ->
  bodies_unique (r_highlights (siteleaf w)) ->
  (forall t, In t (results mail) -> distinct_texts (res_highlights t)) ->
  bodies_unique (r_highlights (siteleaf (snd (parse mail w)))).
Proof.
  intros Hc U N. unfold parse, andThen, synchronize.
  set (w0 := console_log (Time "complete") w).
  pose proof (series_keeps_bodies_unique (results mail) N 0 w0 Hc U) as K.
  destruct (eachSeries sync_one 0 (results mail) w0) as [[[]| e |] w1]; exact K.
Qed.

(** *** Every highlight has its book *)

Lemma owned_more_books (hs : list HighlightDoc) (bs more : list BookDoc) :
  owned_by_stored_books hs bs -> owned_by_stored_books hs (bs ++ more).
Proof.
  intros O h Hin. destruct (O h Hin) as [b [Hb E]]. exists b. split; [|exact E].
  apply in_or_app. now left.
Qed.

Lemma owned_more_highlights (hs docs : list HighlightDoc) (bs : list BookDoc)
  (b : BookDoc) :
  owned_by_stored_books hs bs ->
  In b bs ->
  (forall d, In d docs ->
             book_uuid (hp_metadata (highlight_fields d))
             = uuid (bp_metadata (book_fields b))) ->
  owned_by_stored_books (hs ++ docs) bs.
Proof.
  intros O Hb D h Hin. apply in_app_or in Hin as [Hin | Hin]; [now apply O|].
  exists b. split; [exact Hb | now rewrite (D h Hin)].
Qed.

(** Whatever its outcome, [createHighlights] only adds highlights that
    carry the uuid of the book it was given. *)
Lemma createHighlights_writes_for_book (hs : list Highlight) (b : BookDoc) (w : World) :
  exists docs,
    r_highlights (siteleaf (snd (createHighlights hs b w)))
    = r_highlights (siteleaf w) ++ docs
    /\ forall d, In d docs ->
                 book_uuid (hp_metadata (highlight_fields d))
                 = uuid (bp_metadata (book_fields b)).
Proof.
  unfold createHighlights, andThen.
  pose proof (only_reads_getHighlights w) as [_ [R _]].
  destruct (getHighlights w) as [[existing| e |] w0] eqn:G; simpl in *;
    try (exists []; rewrite app_nil_r; split; [exact R | intros d []]).
  pose proof (getHighlights_fulfilled w w0 existing G) as C0.
  destruct (filterOutExistingHighlights b hs existing) as [|x l];
    [exists []; rewrite app_nil_r; split; [exact R | intros d []]|].
  set (w1 := console_log _ (console_logs _ w0)).
  destruct (writer_stores_a_prefix b (length (x :: l)) (x :: l) 1 w1 existing C0)
    as [l1 [l2 [docs [_ [H M]]]]].
  exists docs. split; [rewrite H; simpl; now rewrite R|].
  clear H. revert l1 M. induction docs as [|d docs IH]; intros l1 M x0 Hin;
    [destruct Hin|].
  destruct l1 as [|h1 l1]; [discriminate|]. simpl in M. injection M as Mu _ M.
  destruct Hin as [<- | Hin]; [exact Mu | exact (IH l1 M x0 Hin)].
Qed.

Lemma addBookAndHighlights_keeps_ownership (book : Book) (hs : list Highlight)
  (w : World) :
  coherent w ->
  owned_by_stored_books (r_highlights (siteleaf w)) (r_books (siteleaf w)) ->
  let w' := snd (addBookAndHighlights book hs w) in
  owned_by_stored_books (r_highlights (siteleaf w')) (r_books (siteleaf w')).
Proof.
  intros Hc O. cbv zeta. unfold addBookAndHighlights.
  destruct hs as [|h hs]; [exact O|].
  set (w0 := draw (console_log (Time (timerName book)) w)).
  set (p := {| bp_title := title book; bp_metadata := _ |}).
  unfold andThen.
  destruct (getBook_highlights_untouched p w0) as [H _].
  assert (Gr : store_grows true w0 (snd (getBook p w0))).
  { apply (respects_getBook store_grows).
    - intros v. now apply store_grows_quiet.
    - intros f a b c. apply store_grows_trans.
    - apply store_grows_getBooks.
    - apply store_grows_createBook. }
  destruct Gr as [bs [_ [B _]]].
  assert (Ob : owned_by_stored_books (r_highlights (siteleaf (snd (getBook p w0))))
                 (r_books (siteleaf (snd (getBook p w0))))).
  { rewrite H, B. now apply owned_more_books. }
  destruct (getBook p w0) as [[b| e |] wb] eqn:G; simpl in *; try exact Ob.
  destruct (getBook_fulfilled p w0 wb b Hc G) as [_ F].
  apply find_some in F as [Hb _].
  destruct (createHighlights_writes_for_book (h :: hs) b wb) as [docs [Hh D]].
  destruct (createHighlights_books_untouched (h :: hs) b wb) as [Bb _].
  assert (K : owned_by_stored_books
                (r_highlights (siteleaf (snd (createHighlights (h :: hs) b wb))))
                (r_books (siteleaf (snd (createHighlights (h :: hs) b wb))))).
  { rewrite Hh, Bb. now apply (owned_more_highlights _ _ _ b). }
  destruct (createHighlights (h :: hs) b wb) as [[[]| e |] wc]; exact K.
Qed.

Lemma series_keeps_ownership (ts : list Tuple) :
  forall (i : nat) (w : World),
    coherent w ->
    owned_by_stored_books (r_highlights (siteleaf w)) (r_books (siteleaf w)) ->
    let w' := snd (eachSeries sync_one i ts w) in
    owned_by_stored_books (r_highlights (siteleaf w')) (r_books (siteleaf w')).
Proof.
  induction ts as [|t ts IH]; intros i w Hc O; simpl; [exact O|].
  change (sync_one i t w)
    with (addBookAndHighlights (res_book t) (res_highlights t) w).
  pose proof (coherent_addBookAndHighlights (res_book t) (res_highlights t) w Hc) as Hc1.
  pose proof (addBookAndHighlights_keeps_ownership (res_book t) (res_highlights t)
                w Hc O) as O1.
  destruct (addBookAndHighlights (res_book t) (res_highlights t) w)
    as [[[]| e |] w1]; simpl in *; try exact O1.
  exact (IH (S i) w1 Hc1 O1).
Qed.

(** X14. No highlight is left without its book: in a process whose cache
    mirrors the store, if every stored highlight carries the uuid of a
    stored book before [parse], so does every stored highlight after it,
    those the run has written included, whichever calls fail. *)
Theorem parse_keeps_every_highlight_owned (mail : Parsers) (w : World) :
  coherent w ->
  owned_by_stored_books (r_highlights (siteleaf w)) (r_books (siteleaf w)) ->
  let w' := snd (parse mail w) in
  owned_by_stored_books (r_highlights (siteleaf w')) (r_books (siteleaf w')).
Proof.
  intros Hc O. cbv zeta. unfold parse, andThen, synchronize.
  set (w0 := console_log (Time "complete") w).
  pose proof (series_keeps_ownership (results mail) 0 w0 Hc O) as K.
  destruct (eachSeries sync_one 0 (results mail) w0) as [[[]| e |] w1]; exact K.
Qed.

End Engine.

Abbreviation sample_parse :=
  (parse sample_uuid_v4 sample_moment_now sample_moment_iso sample_truncate sample_slug).

Abbreviation sample_createHighlight :=
  (createHighlight sample_uuid_v4 sample_moment_iso sample_truncate sample_slug).

Abbreviation sample_createHighlights :=
  (createHighlights sample_uuid_v4 sample_moment_iso sample_truncate sample_slug).

(** ** Idempotence across two processes

    The second process draws its own identifiers and reads its own clock:
    its collaborators are not assumed to be those of the first. *)

(** C1. Let a run get through the tuples [done] successfully, whatever then
    happens to the tuples [rest] that follow them in the same run.  A second
    run, started afresh on the store the first one left and submitting any
    of the tuples of [done] again, creates no highlight and no book: both
    collections are as the first run left them and the store receives no
    create request, whatever failures the second run meets. *)
Theorem resubmission_creates_nothing
  (uuid_v4 moment_now : nat -> string) (moment_iso : JsVal -> option string)
  (truncate : string -> nat -> option JsVal -> string) (slug : string -> bool -> string)
  (uuid_v4' moment_now' : nat -> string) (moment_iso' : JsVal -> option string)
  (truncate' : string -> nat -> option JsVal -> string) (slug' : string -> bool -> string)
  (done rest again : list Tuple) (r0 : Remote) (w_done : World) (fs : list bool) :
  let first := synchronize uuid_v4 moment_now moment_iso truncate slug in
  let second := synchronize uuid_v4' moment_now' moment_iso' truncate' slug' in
  first done (boot r0) = (Fulfilled tt, w_done) ->
  incl again done ->
  let w1 := snd (first (done ++ rest) (boot r0)) in
  let w2 := snd (second again (boot (with_faults fs (siteleaf w1)))) in
  r_books (siteleaf w2) = r_books (siteleaf w1)
  /\ r_highlights (siteleaf w2) = r_highlights (siteleaf w1)
  /\ creates (r_calls (siteleaf w2)) = creates (r_calls (siteleaf w1)).
Proof.
  intros first second E Hincl w1 w2.
  apply (series_settled uuid_v4' moment_now' moment_iso' truncate' slug' again 0
           (boot (with_faults fs (siteleaf w1))) (coherent_boot _)).
  intros t Hin.
  apply (settled_same_store t (siteleaf w1)); try reflexivity.
  exact (done_stays_settled uuid_v4 moment_now moment_iso truncate slug
           done rest 0 (boot r0) w_done (coherent_boot r0) E t (Hincl t Hin)).
Qed.

(** ** The engine at work on concrete inputs *)

(** The examples of the specification for trimming and exact matching. *)
Example trim_example : trim "  Hello world.  " = "Hello world.".
Proof. reflexivity. Qed.

Example dedup_example :
  filterOutExistingHighlights (stored_book 1 "Foo" "Foo" "u-foo") [hello; hello_again]
    [stored_highlight 2 "  Hello world.  " "u-foo"]
  = [hello_again].
Proof. reflexivity. Qed.

(** Two books, the same quote: a run on an empty store creates both books
    and both highlights. *)
Example two_books_same_quote :
  let run := sample_parse
               (clippings [ {| res_book := foo; res_highlights := [same_quote] |};
                            {| res_book := bar; res_highlights := [same_quote] |} ])
               (boot empty_store) in
  fst run = Fulfilled tt
  /\ map (fun b => bp_title (book_fields b)) (r_books (siteleaf (snd run))) = ["Foo"; "Bar"]
  /\ map (fun h => (body (highlight_fields h), book_uuid (hp_metadata (highlight_fields h))))
         (r_highlights (siteleaf (snd run)))
     = [("Same quote.", "uuid-0"); ("Same quote.", "uuid-2")].
Proof. vm_compute. repeat split. Qed.

(** Falsy locations are stored as [null]. *)
Example location_examples :
  map (fun l => hm_location (hp_metadata
                  (createHighlight_params sample_moment_iso sample_truncate sample_slug
                     (quote "q" JUndefined l) (stored_book 1 "Foo" "Foo" "u-foo") "tok")))
      [JUndefined; JNum 0; JStr EmptyString; JNum 12; JStr "40"]
  = [JNull; JNull; JNull; JStr "12"; JStr "40"].
Proof. reflexivity. Qed.

(** ** The theorems at concrete inputs *)

(** A run of two tuples on an empty store; the store refuses the create
    call of the second tuple's highlight.  The first tuple is then submitted
    again in a new process, which draws other identifiers. *)
Lemma resubmission_creates_nothing_witness :
  let t1 := {| res_book := foo; res_highlights := [hello; hello_again] |} in
  let t2 := {| res_book := bar; res_highlights := [same_quote] |} in
  let r0 := with_faults [false; false; false; false; false; false; true] empty_store in
  let first := synchronize sample_uuid_v4 sample_moment_now sample_moment_iso
                 sample_truncate sample_slug in
  let second := synchronize later_uuid_v4 later_moment_now sample_moment_iso
                  sample_truncate sample_slug in
  let w1 := snd (first [t1; t2] (boot r0)) in
  let w2 := snd (second [t1] (boot (with_faults [] (siteleaf w1)))) in
  fst (first [t1; t2] (boot r0)) = Pending
  /\ length (r_books (siteleaf w1)) = 2
  /\ length (r_highlights (siteleaf w1)) = 2
  /\ r_books (siteleaf w2) = r_books (siteleaf w1)
  /\ r_highlights (siteleaf w2) = r_highlights (siteleaf w1)
  /\ creates (r_calls (siteleaf w2)) = creates (r_calls (siteleaf w1)).
Proof.
  cbv zeta. split; [reflexivity|]. split; [reflexivity|]. split; [reflexivity|].
  refine (resubmission_creates_nothing
            sample_uuid_v4 sample_moment_now sample_moment_iso sample_truncate
            sample_slug
            later_uuid_v4 later_moment_now sample_moment_iso sample_truncate
            sample_slug
            [ {| res_book := foo; res_highlights := [hello; hello_again] |} ]
            [ {| res_book := bar; res_highlights := [same_quote] |} ]
            [ {| res_book := foo; res_highlights := [hello; hello_again] |} ]
            (with_faults [false; false; false; false; false; false; true] empty_store)
            (snd (synchronize sample_uuid_v4 sample_moment_now sample_moment_iso
                    sample_truncate sample_slug
                    [ {| res_book := foo; res_highlights := [hello; hello_again] |} ]
                    (boot (with_faults [false; false; false; false; false; false; true]
                             empty_store))))
            [] _ _).
  - vm_compute. reflexivity.
  - intros t H. exact H.
Defined.


(** The same quote submitted for two books, in a process that has not
    listed the highlights yet. *)
Lemma dedup_scoped_to_book_witness :
  exists w1 w2 docA docB,
    sample_createHighlights [same_quote] foo_doc (boot empty_store) = (Fulfilled tt, w1)
    /\ sample_createHighlights [same_quote] bar_doc w1 = (Fulfilled tt, w2)
    /\ r_highlights (siteleaf w2) = r_highlights (siteleaf (boot empty_store)) ++ [docA; docB]
    /\ body (highlight_fields docA) = "Same quote."
    /\ book_uuid (hp_metadata (highlight_fields docA)) = "u-foo"
    /\ body (highlight_fields docB) = "Same quote."
    /\ book_uuid (hp_metadata (highlight_fields docB)) = "u-bar".
Proof.
  apply (dedup_scoped_to_book
           sample_uuid_v4 sample_moment_iso sample_truncate sample_slug
           foo_doc bar_doc same_quote same_quote
           (boot empty_store) (snd (getHighlights (boot empty_store))) []).
  - apply String.eqb_neq. reflexivity.
  - reflexivity.
  - reflexivity.
  - reflexivity.
  - reflexivity.
  - reflexivity.
  - reflexivity.
Defined.

(** A candidate whose title is the original title of the second book on the
    shelf, and one whose title differs from it by case only. *)
Lemma resolve_book_by_original_title_witness :
  getBook sample_moment_now (candidate "New Title") shelved
  = (Fulfilled (stored_book 2 "Corrected Title" "New Title" "u-new"),
     snd (getBooks shelved))
  /\ r_books (siteleaf (snd (getBooks shelved))) = shelf
  /\ (exists params ok,
         r_calls (siteleaf (snd (getBook sample_moment_now (candidate "new title") shelved)))
         = r_calls (siteleaf (snd (getBooks shelved))) ++ [(POST_book params, ok)]
         /\ bp_title params = "new title").
Proof.
  destruct (resolve_book_by_original_title sample_moment_now
              (candidate "New Title") shelved (snd (getBooks shelved)) shelf eq_refl)
    as [Found _].
  destruct (Found [stored_book 1 "Foo" "Foo" "u-foo"]
              (stored_book 2 "Corrected Title" "New Title" "u-new") [])
    as [G [B _]].
  - reflexivity.
  - intros b [<- | []]. simpl. intros H. discriminate H.
  - reflexivity.
  - split; [exact G|]. split; [exact B|].
    destruct (resolve_book_by_original_title sample_moment_now
                (candidate "new title") shelved (snd (getBooks shelved)) shelf eq_refl)
      as [_ Absent].
    destruct Absent as [_ [params [ok [C [T _]]]]].
    + intros b [<- | [<- | []]]; simpl; intros H; discriminate H.
    + exists params, ok. split; [exact C | exact T].
Defined.

(** Two tuples, the store refusing the first highlight of the first. *)
Lemma failure_halts_later_tuples_witness :
  let t1 := {| res_book := foo; res_highlights := [hello] |} in
  let t2 := {| res_book := bar; res_highlights := [same_quote] |} in
  let w := boot (with_faults [false; false; false; true] empty_store) in
  let w1 := snd (addBookAndHighlights sample_uuid_v4 sample_moment_now sample_moment_iso
                   sample_truncate sample_slug foo [hello] w) in
  synchronize sample_uuid_v4 sample_moment_now sample_moment_iso sample_truncate
    sample_slug [t1; t2] w
  = (Pending, w1)
  /\ map snd (r_calls (siteleaf w1)) = [true; true; true; false].
Proof.
  cbv zeta. split; [|reflexivity].
  refine (proj1
            (failure_halts_later_tuples
               sample_uuid_v4 sample_moment_now sample_moment_iso sample_truncate
               sample_slug
               {| res_book := foo; res_highlights := [hello] |}
               [ {| res_book := bar; res_highlights := [same_quote] |} ]
               (boot (with_faults [false; false; false; true] empty_store))
               (r_calls
                  (siteleaf
                     (snd (addBookAndHighlights sample_uuid_v4 sample_moment_now
                             sample_moment_iso sample_truncate sample_slug foo [hello]
                             (boot (with_faults [false; false; false; true]
                                      empty_store))))))
               (POST_highlight
                  (createHighlight_params sample_moment_iso sample_truncate sample_slug
                     hello
                     {| book_id := 1;
                        book_fields :=
                          {| bp_title := "Foo";
                             bp_metadata :=
                               {| bm_author := JStr "A. Author";
                                  bm_asin := JUndefined;
                                  uuid := "uuid-0";
                                  original_title := Some "Foo";
                                  bm_date := Some "2020-03-03T09:00:00-05:00" |} |} |}
                     "uuid-1"))
               _ _)).
  - reflexivity.
  - vm_compute. right. right. right. left. reflexivity.
Defined.


(** ** Where the source departs from the specification *)



(** C8 as stated fails when the first read fails: nothing is memoised, and
    the next invocation sends a second remote read.  So it is for two
    synchronisations in one process, the first of which fails to list the
    highlights. *)
Lemma failed_read_is_repeated :
  let w0 := boot (with_faults [true] empty_store) in
  let w1 := snd (getHighlights w0) in
  let w2 := snd (getHighlights w1) in
  let mail := clippings [ {| res_book := foo; res_highlights := [hello] |} ] in
  let twice := invoke_all sample_uuid_v4 sample_moment_now sample_moment_iso
                 sample_truncate sample_slug [call_parse mail; call_parse mail]
                 (boot (with_faults [false; false; true] empty_store)) in
  fst (getHighlights w0) = Rejected RemoteError
  /\ fst (getHighlights w1) = Fulfilled []
  /\ r_calls (siteleaf w2)
     = [(GET_documents Highlights limit, false); (GET_documents Highlights limit, true)]
  /\ reads Highlights (r_calls (siteleaf w2)) = 2
  /\ r_calls (siteleaf w2) <> r_calls (siteleaf w1)
  /\ reads Highlights (r_calls (siteleaf twice)) = 2.
Proof.
  cbv zeta. repeat split. intros H. vm_compute in H. discriminate H.
Qed.

(** A process that has read a listing successfully, then runs a whole
    synchronisation and asks for the listings again: no further read. *)
Lemma listing_memoised_after_successful_read_witness :
  let w := snd (getBooks (snd (getHighlights (boot empty_store)))) in
  let ops := [call_parse (clippings [ {| res_book := foo; res_highlights := [hello] |} ]);
              call_getHighlights; call_getBooks] in
  let w' := invoke_all sample_uuid_v4 sample_moment_now sample_moment_iso sample_truncate
              sample_slug ops w in
  getHighlights w = (Fulfilled [], w)
  /\ reads Highlights (r_calls (siteleaf w')) = 1
  /\ reads Books (r_calls (siteleaf w')) = 1
  /\ length (r_calls (siteleaf w')) = 4.
Proof.
  cbv zeta.
  pose proof (listing_memoised_after_successful_read
                sample_uuid_v4 sample_moment_now sample_moment_iso sample_truncate
                sample_slug
                (snd (getBooks (snd (getHighlights (boot empty_store)))))
                [call_parse (clippings [ {| res_book := foo; res_highlights := [hello] |} ]);
                 call_getHighlights; call_getBooks]) as [H B].
  simpl in H, B. destruct H as [G [Rh _]]. destruct B as [_ [Rb _]].
  split; [exact G|]. split; [exact Rh|]. split; [exact Rb | reflexivity].
Defined.

(** ** The further properties at concrete inputs *)

Abbreviation sample_addBookAndHighlights :=
  (addBookAndHighlights sample_uuid_v4 sample_moment_now sample_moment_iso
     sample_truncate sample_slug).

(** A tuple synchronised on an empty store, then once more. *)
Lemma second_time_from_cache_witness :
  let w1 := snd (sample_addBookAndHighlights foo [hello; hello_again] (boot empty_store)) in
  length (r_calls (siteleaf w1)) = 5
  /\ exists w2,
      sample_addBookAndHighlights foo [hello; hello_again] w1 = (Fulfilled tt, w2)
      /\ siteleaf w2 = siteleaf w1
      /\ cache w2 = cache w1.
Proof.
  cbv zeta. split; [reflexivity|].
  apply (second_time_from_cache
           sample_uuid_v4 sample_moment_now sample_moment_iso sample_truncate
           sample_slug foo [hello; hello_again] (boot empty_store)).
  vm_compute. reflexivity.
Defined.

(** A title new to the shelf, resolved twice. *)
Lemma getBook_again_same_record_witness :
  let w1 := snd (getBook sample_moment_now (candidate "Brand New") shelved) in
  getBook sample_moment_now
    {| bp_title := "Brand New";
       bp_metadata :=
         {| bm_author := JUndefined; bm_asin := JUndefined; uuid := "uuid-other";
            original_title := None; bm_date := None |} |}
    w1
  = (Fulfilled brand_new_doc, w1).
Proof.
  cbv zeta.
  apply (getBook_again_same_record sample_moment_now
           (candidate "Brand New") _ shelved _ brand_new_doc).
  - reflexivity.
  - reflexivity.
Defined.

(** Three candidates, the first of which the store already holds. *)
Lemma writer_stores_survivors_in_order_witness :
  exists w',
    sample_createHighlights [hello; hello_again; same_quote] foo_doc (boot stocked)
    = (Fulfilled tt, w')
    /\ map (fun d => (highlight_id d, body (highlight_fields d)))
           (r_highlights (siteleaf w'))
       = [(3, "  Hello world.  "); (4, "Hello world!"); (5, "Same quote.")]
    /\ c_highlights (cache w') = Some (r_highlights (siteleaf w')).
Proof.
  destruct (writer_stores_survivors_in_order
              sample_uuid_v4 sample_moment_iso sample_truncate sample_slug
              [hello; hello_again; same_quote] foo_doc
              (boot stocked) (snd (getHighlights (boot stocked)))
              [stored_highlight 3 "  Hello world.  " "u-foo"])
    as [w' [E [H [C _]]]].
  - reflexivity.
  - reflexivity.
  - exists w'. split; [exact E|]. rewrite C, H. split; reflexivity.
Defined.

Lemma writer_console_output_witness :
  console (snd (sample_createHighlights [hello; hello_again; same_quote] foo_doc
                  (boot stocked)))
  = [Filtering 1 "Foo"; FoundExisting "Hello world.";
     Creating 2 "Foo";
     InvalidDate (JStr "not a date"); Created 1 2 "Foo";
     Created 2 2 "Foo"].
Proof.
  destruct (writer_console_output
              sample_uuid_v4 sample_moment_iso sample_truncate sample_slug
              [hello; hello_again; same_quote] foo_doc
              (boot stocked) (snd (getHighlights (boot stocked)))
              [stored_highlight 3 "  Hello world.  " "u-foo"])
    as [L _].
  - reflexivity.
  - reflexivity.
  - rewrite L. reflexivity.
Defined.

(** The same text twice in one batch, new to the book. *)
Lemma duplicates_within_a_batch_are_both_stored_witness :
  exists w' d d',
    sample_createHighlights [hello; hello_padded] foo_doc (boot empty_store)
    = (Fulfilled tt, w')
    /\ r_highlights (siteleaf w') = [d; d']
    /\ body (highlight_fields d) = "Hello world."
    /\ body (highlight_fields d') = " Hello world. "
    /\ trim (body (highlight_fields d)) = trim (body (highlight_fields d')).
Proof.
  destruct (duplicates_within_a_batch_are_both_stored
              sample_uuid_v4 sample_moment_iso sample_truncate sample_slug
              hello hello_padded foo_doc
              (boot empty_store) (snd (getHighlights (boot empty_store))) [])
    as [w' [d [d' [E [H [B [B' [_ [_ T]]]]]]]]].
  - reflexivity.
  - reflexivity.
  - reflexivity.
  - reflexivity.
  - exists w', d, d'. auto.
Defined.

(** Two books without highlights. *)
Lemma run_without_highlights_does_nothing_witness :
  let run := sample_parse
               (clippings [ {| res_book := foo; res_highlights := [] |};
                            {| res_book := bar; res_highlights := [] |} ])
               (boot stocked) in
  fst run = Fulfilled tt
  /\ siteleaf (snd run) = stocked
  /\ cache (snd run) = cache (boot stocked)
  /\ console (snd run) = [Time "complete"; TimeEnd "complete"].
Proof.
  cbv zeta.
  pose proof (run_without_highlights_does_nothing
                sample_uuid_v4 sample_moment_now sample_moment_iso sample_truncate
                sample_slug
                (clippings [ {| res_book := foo; res_highlights := [] |};
                             {| res_book := bar; res_highlights := [] |} ])
                (boot stocked)) as T.
  destruct (sample_parse _ (boot stocked)) as [o w'].
  destruct T as [O [S [C [_ L]]]].
  - intros t [<- | [<- | []]]; reflexivity.
  - simpl. auto.
Defined.

(** Three tuples on the shelf: a title it holds, one it holds under another
    display title, and a new one. *)
Lemma parse_keeps_one_book_per_title_witness :
  let w' := snd (sample_parse
                   (clippings [ {| res_book := foo; res_highlights := [hello] |};
                                {| res_book := new_title; res_highlights := [same_quote] |};
                                {| res_book := baz; res_highlights := [hello] |} ])
                   shelved) in
  map (fun b => original_title (bp_metadata (book_fields b))) (r_books (siteleaf w'))
  = [Some "Foo"; Some "New Title"; Some "Baz"]
  /\ titles_unique (r_books (siteleaf w')).
Proof.
  cbv zeta. split; [reflexivity|].
  apply (parse_keeps_one_book_per_title
           sample_uuid_v4 sample_moment_now sample_moment_iso sample_truncate
           sample_slug).
  - split; exact I.
  - intros t. change (r_books (siteleaf shelved)) with shelf.
    unfold shelf, stored_book, has_original_title.
    cbn [filter original_title bp_metadata book_fields].
    destruct ("Foo" =? t) eqn:E1; destruct ("New Title" =? t) eqn:E2;
      cbn [length]; try lia.
    apply String.eqb_eq in E1, E2. rewrite <- E1 in E2. discriminate E2.
Defined.

(** Two tuples on the stocked store, each with different texts. *)
Lemma parse_keeps_one_highlight_per_text_witness :
  let w' := snd (sample_parse
                   (clippings [ {| res_book := foo; res_highlights := [hello; hello_again] |};
                                {| res_book := bar; res_highlights := [hello] |} ])
                   (boot stocked)) in
  map (fun h => (book_uuid (hp_metadata (highlight_fields h)), body (highlight_fields h)))
      (r_highlights (siteleaf w'))
  = [("u-foo", "  Hello world.  "); ("u-foo", "Hello world!"); ("u-bar", "Hello world.")]
  /\ bodies_unique (r_highlights (siteleaf w')).
Proof.
  cbv zeta. split; [reflexivity|].
  apply (parse_keeps_one_highlight_per_text
           sample_uuid_v4 sample_moment_now sample_moment_iso sample_truncate
           sample_slug).
  - split; exact I.
  - intros u c. simpl. destruct (same_text u c _); simpl; lia.
  - intros t [<- | [<- | []]]; unfold distinct_texts; simpl;
      repeat constructor; simpl; intuition discriminate.
Defined.

Lemma parse_keeps_every_highlight_owned_witness :
  let w' := snd (sample_parse
                   (clippings [ {| res_book := baz; res_highlights := [hello; same_quote] |} ])
                   (boot stocked)) in
  length (r_highlights (siteleaf w')) = 3
  /\ owned_by_stored_books (r_highlights (siteleaf w')) (r_books (siteleaf w')).
Proof.
  cbv zeta. split; [reflexivity|].
  apply (parse_keeps_every_highlight_owned
           sample_uuid_v4 sample_moment_now sample_moment_iso sample_truncate
           sample_slug).
  - split; exact I.
  - intros h [<- | []]. exists foo_doc. split; [left; reflexivity | reflexivity].
Defined.
